(** * closest_sum.py: the pair of a list whose sum is closest to zero

    A shallow embedding of [find_closest_sum_to_zero] (sort, then a
    two-cursor scan) and the properties of its result.

    Python integers are unbounded, hence [Z].  The list [arr] is a mutable
    object shared with the caller: the function is modelled in state-passing
    style and returns the final contents of [arr] next to its outcome.
    Exceptions are the left summand of a sum type. *)

From Stdlib Require Import ZArith Lia String.
From Equations Require Import Equations.
From Equations.Prop Require Import Logic.
From stdpp Require Import base list sorting.

Local Open Scope Z_scope.

(** ** Python values used by the function *)

(** The exceptions the function body can raise: the explicit [ValueError]
    of the length guard, and the [IndexError] of a subscript out of range. *)
Inductive exn : Type :=
| ValueError (msg : string)
| IndexError (msg : string).

(** Outcome of a computation that may raise. *)
Definition res (A : Type) : Type := exn + A.

Definition ret {A} (a : A) : res A := inr a.
Definition raise {A} (e : exn) : res A := inl e.
Definition bind {A B} (m : res A) (k : A -> res B) : res B :=
  match m with
  | inl e => inl e
  | inr a => k a
  end.

Notation "'let*' x ':=' m 'in' k" := (bind m (fun x => k))
  (at level 10, x name, m at level 100, k at level 200).

(** [min_sum] holds [float('inf')] before the first update and an integer
    afterwards. *)
Inductive number : Type :=
| Inf
| Int (z : Z).

(** [abs(x)]. *)
Definition py_abs (x : number) : number :=
  match x with
  | Inf => Inf
  | Int z => Int (Z.abs z)
  end.

(** [x < y]; Python compares an integer with an infinite float exactly. *)
Definition py_lt (x y : number) : bool :=
  match x, y with
  | Int a, Int b => a <? b
  | Int _, Inf => true
  | Inf, _ => false
  end.

(** [len(arr)]. *)
Definition len (arr : list Z) : Z := Z.of_nat (length arr).

(** [arr[i]]: a negative index counts from the end, an index out of range
    raises [IndexError]. *)
Definition getitem (arr : list Z) (i : Z) : res Z :=
  let k := if i <? 0 then i + len arr else i in
  if (0 <=? k) && (k <? len arr) then
    match arr !! Z.to_nat k with
    | Some x => ret x
    | None => raise (IndexError "list index out of range"%string)
    end
  else raise (IndexError "list index out of range"%string).

(** [arr.sort()] on a list of integers: the non-decreasing rearrangement
    ([list_sort_unique] below shows that any sorting procedure yields this
    very list). *)
Definition list_sort (arr : list Z) : list Z := merge_sort Z.le arr.

(** A result tuple; a component is [None] for Python's [None]. *)
Definition pair_result : Type := option Z * option Z.

(** ** The scan *)

(** The local variables of the loop. *)
Record scan_state : Type := mk_state {
  left : Z;
  right : Z;
  min_sum : number;
  result : pair_result
}.

(** The test [abs(current_sum) < abs(min_sum)]. *)
Definition closer (current_sum : Z) (m : number) : bool :=
  py_lt (py_abs (Int current_sum)) (py_abs m).

(** One execution of the body of [while left < right]. *)
Definition loop_body (arr : list Z) (st : scan_state) : res scan_state :=
  let* x := getitem arr (left st) in
  let* y := getitem arr (right st) in
  let current_sum := x + y in
  let* st1 :=
    if closer current_sum (min_sum st) then
      let* a := getitem arr (left st) in
      let* b := getitem arr (right st) in
      ret (mk_state (left st) (right st) (Int current_sum) (Some a, Some b))
    else ret st in
  if current_sum <? 0 then
    ret (mk_state (left st1 + 1) (right st1) (min_sum st1) (result st1))
  else
    ret (mk_state (left st1) (right st1 - 1) (min_sum st1) (result st1)).

(** The distance between the cursors, the measure that shrinks by one at
    each iteration. *)
Definition gap (st : scan_state) : nat := Z.to_nat (right st - left st).

(** [while left < right: body], from the state [st]. *)
Equations? while_loop (arr : list Z) (st : scan_state) : res scan_state
  by wf (gap st) lt :=
  while_loop arr st with inspect (left st <? right st) := {
    | exist _ false _ => ret st
    | exist _ true Hc with inspect (loop_body arr st) := {
        | exist _ (inl e) _ => raise e
        | exist _ (inr st') Hb => while_loop arr st' } }.
Proof.
  apply Z.ltb_lt in Hc. revert Hb. unfold gap, loop_body, bind, ret.
  destruct (getitem arr (left st)); [discriminate|].
  destruct (getitem arr (right st)); [discriminate|].
  destruct (closer _ _); destruct (_ <? 0); intros [= <-]; cbn; lia.
Qed.

(** The states in which the loop test succeeded, in order: one per
    iteration. *)
Equations? while_trace (arr : list Z) (st : scan_state) : list scan_state
  by wf (gap st) lt :=
  while_trace arr st with inspect (left st <? right st) := {
    | exist _ false _ => []
    | exist _ true Hc with inspect (loop_body arr st) := {
        | exist _ (inl e) _ => [st]
        | exist _ (inr st') Hb => st :: while_trace arr st' } }.
Proof.
  apply Z.ltb_lt in Hc. revert Hb. unfold gap, loop_body, bind, ret.
  destruct (getitem arr (left st)); [discriminate|].
  destruct (getitem arr (right st)); [discriminate|].
  destruct (closer _ _); destruct (_ <? 0); intros [= <-]; cbn; lia.
Qed.

(** The state on entry to the loop. *)
Definition init_state (arr : list Z) : scan_state :=
  mk_state 0 (len arr - 1) Inf (None, None).

(** [find_closest_sum_to_zero(arr)]: the contents of [arr] after the call,
    and the returned tuple or the exception raised. *)
Definition find_closest_sum_to_zero (arr : list Z)
  : list Z * res pair_result :=
  if len arr <? 2 then
    (arr, raise (ValueError "Array must contain at least 2 elements"%string))
  else
    let arr := list_sort arr in
    (arr, let* st := while_loop arr (init_state arr) in ret (result st)).

Arguments closer : simpl never.

(** ** Vocabulary of the properties *)

(** [exec arr st tr st']: started in [st], the loop performs the iterations
    listed in [tr] (the state at the start of each) and exits in [st']. *)
Inductive exec (arr : list Z)
  : scan_state -> list scan_state -> scan_state -> Prop :=
| exec_exit st :
    right st <= left st ->
    exec arr st [] st
| exec_iter st st1 tr st' :
    left st < right st ->
    loop_body arr st = inr st1 ->
    exec arr st1 tr st' ->
    exec arr st (st :: tr) st'.

(** [x] and [y] are the elements under the two cursors of [u]. *)
Definition at_cursors (arr : list Z) (u : scan_state) (x y : Z) : Prop :=
  arr !! Z.to_nat (left u) = Some x /\ arr !! Z.to_nat (right u) = Some y.

(** [a] and [b] are found at two different positions of [l]. *)
Definition occurs_pair (l : list Z) (a b : Z) : Prop :=
  exists i j : nat, i <> j /\ l !! i = Some a /\ l !! j = Some b.

(** The call returned the pair of the values [a] and [b]: a pair names its
    two values, whichever comes first in the tuple. *)
Definition yields_pair (out : res pair_result) (a b : Z) : Prop :=
  out = inr (Some a, Some b) \/ out = inr (Some b, Some a).

(** The incumbent is the sum of two elements at distinct positions of [s],
    and [result] holds these two elements (or nothing was recorded yet). *)
Definition best_ok (s : list Z) (st : scan_state) : Prop :=
  match min_sum st with
  | Inf => result st = (None, None)
  | Int m =>
      exists (i j : nat) (a b : Z),
        (i < j)%nat /\ s !! i = Some a /\ s !! j = Some b /\
        m = a + b /\ result st = (Some a, Some b)
  end.

(** No pair with a position outside the window [left .. right] is closer
    to zero than the incumbent. *)
Definition excluded_ok (s : list Z) (st : scan_state) : Prop :=
  forall (i j : nat) (x y : Z),
    (i < j)%nat -> s !! i = Some x -> s !! j = Some y ->
    Z.of_nat i < left st \/ right st < Z.of_nat j ->
    exists m, min_sum st = Int m /\ Z.abs m <= Z.abs (x + y).

(** * The console program around the function *)

(** ** Strings, built-ins and console events *)

From Stdlib Require Import Ascii.

(** A Python string: its sequence of code points. *)
Abbreviation pystr := (list N).

(** A string literal of the program. *)
Definition lit (s : string) : pystr :=
  map Ascii.N_of_ascii (list_ascii_of_string s).
Arguments lit s%_string.

(** The code point of a one-character literal. *)
Definition chr (c : Ascii.ascii) : N := Ascii.N_of_ascii c.
Arguments chr c%_char.

(** The newline that starts some of the printed texts. *)
Definition nl : string := String (Ascii.ascii_of_nat 10) EmptyString.

(** The three built-ins whose result depends on Unicode tables or on the
    interpreter: which code points [str.strip] removes, [str.lower], and
    [int] on a string ([None] when it raises [ValueError]).  The program is
    modelled for any such functions. *)
Record builtins : Type := mk_builtins {
  isspace : N -> bool;
  lower : pystr -> pystr;
  py_int : pystr -> option Z
}.

(** What the program writes: a [print] of a fixed text, the prompt of
    [input], and the two formatted lines that show a list and a result. *)
Inductive event : Type :=
| Print (text : string)
| Prompt (text : string)
| PrintArray (numbers : list Z)
| PrintResult (r : pair_result).
Arguments Print text%_string.
Arguments Prompt text%_string.

(** How a run can abort: [input] at the end of the input, or an exception
    of [find_closest_sum_to_zero] that nothing catches. *)
Inductive crash : Type :=
| EOFError
| Uncaught (e : exn).

(** A run on the lines waiting on standard input: the events written, the
    lines left unread, and the value returned or the exception raised. *)
Record run (A : Type) : Type := mk_run {
  printed : list event;
  unread : list pystr;
  outcome : crash + A
}.
Arguments mk_run {A} _ _ _.
Arguments printed {A} _.
Arguments unread {A} _.
Arguments outcome {A} _.

(** How an iteration of the menu loop ends. *)
Inductive flow : Type :=
| Continue
| Break.

(** [s.split(sep)] for a one-character separator. *)
Fixpoint split (sep : N) (s : pystr) : list pystr :=
  match s with
  | [] => [[]]
  | c :: s' =>
      if decide (c = sep) then [] :: split sep s'
      else match split sep s' with
           | piece :: pieces => (c :: piece) :: pieces
           | [] => [[c]]
           end
  end.

(** [s.startswith(c)] and [s.endswith(c)] for a one-character [c]. *)
Definition startswith (s : pystr) (c : N) : bool :=
  match s with
  | x :: _ => bool_decide (x = c)
  | [] => false
  end.

Definition endswith (s : pystr) (c : N) : bool :=
  match last s with
  | Some x => bool_decide (x = c)
  | None => false
  end.

(** [s[1:-1]]: from the second code point up to the last one, excluded. *)
Definition slice_1_m1 (s : pystr) : pystr :=
  take (length s - 2) (drop 1 s).

(** The example lists of option 2. *)
Definition test_arrays : list (list Z) :=
  [ [-8; 4; 5; -10; 3];
    [1; 60; -10; 70; -80; 85];
    [-1; 2; -3; 4; -5];
    [1; 2; 3; 4; 5];
    [-1; -2; -3; -4; -5] ].

(** [for arr in arrays]: call the function, print the list (as the call
    left it) and the result.  An exception of the call ends the loop. *)
Fixpoint show_examples (arrays : list (list Z)) : list event * option exn :=
  match arrays with
  | [] => ([], None)
  | arr :: more =>
      match find_closest_sum_to_zero arr with
      | (_, inl e) => ([], Some e)
      | (arr', inr r) =>
          let '(out, e) := show_examples more in
          (PrintArray arr' :: PrintResult r :: out, e)
      end
  end.

Section Console.
Context (B : builtins).

(** [s.strip()]: drop the white space at both ends. *)
Fixpoint lstrip (s : pystr) : pystr :=
  match s with
  | [] => []
  | c :: s' => if isspace B c then lstrip s' else s
  end.

Definition rstrip (s : pystr) : pystr := reverse (lstrip (reverse s)).

Definition strip (s : pystr) : pystr := rstrip (lstrip s).

(** The body of the loop of [get_numbers_from_user] once [input] has
    returned [line]: the events printed, and [Some r] when the function
    returns [r] or [None] when the loop goes on. *)
Definition prompt_body (line : pystr)
  : list event * option (option (list Z)) :=
  let user_input := strip line in
  if decide (lower B user_input = lit "q") then ([], Some None)
  else
    let user_input :=
      if startswith user_input (chr "[") && endswith user_input (chr "]")
      then slice_1_m1 user_input
      else user_input in
    match mapM (fun x => py_int B (strip x)) (split (chr ",") user_input) with
    | Some numbers =>
        if Z.of_nat (length numbers) <? 2 then
          ([Print "Please enter at least 2 numbers!"], None)
        else ([], Some (Some numbers))
    | None =>
        ([Print "Invalid input! Please enter numbers in one of these formats:";
          Print "- Comma-separated: 1,2,3,-4,5";
          Print "- Array format: [1,2,3,-4,5] or [-8, 4, 5, -10, 3]"], None)
    end.

(** [while True] of [get_numbers_from_user]: each iteration reads a line. *)
Fixpoint prompt_loop (inp : list pystr) : run (option (list Z)) :=
  match inp with
  | [] => mk_run [Prompt "> "] [] (inl EOFError)
  | line :: rest =>
      match prompt_body line with
      | (out, Some r) => mk_run (Prompt "> " :: out) rest (inr r)
      | (out, None) =>
          let r := prompt_loop rest in
          mk_run (Prompt "> " :: out ++ printed r) (unread r) (outcome r)
      end
  end.

(** [get_numbers_from_user()]: [None] on quit, else the list entered. *)
Definition get_numbers_from_user (inp : list pystr) : run (option (list Z)) :=
  let r := prompt_loop inp in
  mk_run ([Print (nl ++ "Enter numbers in one of these formats:")%string;
           Print "- Comma-separated: 1,2,3,-4,5";
           Print "- Array format: [1,2,3,-4,5] or [-8, 4, 5, -10, 3]";
           Print "Or enter 'q' to quit:"] ++ printed r)
         (unread r) (outcome r).

(** One iteration of the menu loop. *)
Definition menu_iteration (inp : list pystr) : run flow :=
  let ask := [Print (nl ++ "Choose an option (1-3):")%string; Prompt "> "] in
  match inp with
  | [] => mk_run ask [] (inl EOFError)
  | line :: rest =>
      let choice := strip line in
      if decide (choice = lit "1") then
        let g := get_numbers_from_user rest in
        match outcome g with
        | inl e => mk_run (ask ++ printed g) (unread g) (inl e)
        | inr None => mk_run (ask ++ printed g) (unread g) (inr Continue)
        | inr (Some []) => mk_run (ask ++ printed g) (unread g) (inr Continue)
        | inr (Some numbers) =>
            match find_closest_sum_to_zero numbers with
            | (_, inl e) =>
                mk_run (ask ++ printed g) (unread g) (inl (Uncaught e))
            | (numbers', inr r) =>
                mk_run (ask ++ printed g ++
                        [PrintArray numbers'; PrintResult r])
                       (unread g) (inr Continue)
            end
        end
      else if decide (choice = lit "2") then
        match show_examples test_arrays with
        | (out, Some e) => mk_run (ask ++ out) rest (inl (Uncaught e))
        | (out, None) => mk_run (ask ++ out) rest (inr Continue)
        end
      else if decide (choice = lit "3") then
        mk_run (ask ++ [Print "Goodbye!"]) rest (inr Break)
      else
        mk_run (ask ++ [Print "Invalid choice! Please enter 1, 2, or 3."])
               rest (inr Continue)
  end.

(** The menu loop: iterations until [break] or an exception. *)
Equations? main_loop (inp : list pystr) : run unit
  by wf (length inp) lt :=
  main_loop inp with inspect (menu_iteration inp) := {
    | exist _ (mk_run out rest (inl e)) _ => mk_run out rest (inl e)
    | exist _ (mk_run out rest (inr Break)) _ => mk_run out rest (inr tt)
    | exist _ (mk_run out rest (inr Continue)) Hit =>
        let r := main_loop rest in
        mk_run (out ++ printed r) (unread r) (outcome r) }.
Proof.
  assert (Hread : forall l, (length (unread (prompt_loop l)) <= length l)%nat).
  { induction l as [|line l IH]; cbn; [lia|].
    destruct (prompt_body line) as [o [r|]]; cbn; lia. }
  revert Hit. unfold menu_iteration.
  destruct inp as [|line inp]; [discriminate|].
  specialize (Hread inp).
  repeat case_decide;
    cbn [get_numbers_from_user outcome unread printed];
    try destruct (outcome (prompt_loop inp)) as [e|[[|x numbers]|]];
    try destruct (find_closest_sum_to_zero _) as [numbers' [e'|r]];
    try destruct (show_examples test_arrays) as [o [e'|]];
    intros Heq; try discriminate Heq;
    apply (f_equal unread) in Heq; cbn in Heq; subst rest; cbn; lia.
Qed.

(** The program run as a script. *)
Definition main (inp : list pystr) : run unit :=
  let r := main_loop inp in
  mk_run ([Print "Welcome to the Closest Sum to Zero Finder!";
           Print "You can:";
           Print "1. Enter numbers manually";
           Print "2. See example test cases";
           Print "3. Quit"] ++ printed r)
         (unread r) (outcome r).

End Console.

(** ** An instance of the built-ins, to run the program on examples

    Exact on ASCII text written with an optional sign and decimal digits;
    it stands for the built-ins in the examples only, no property below
    depends on it. *)

Definition sample_isspace (c : N) : bool :=
  bool_decide (c ∈ [9; 10; 11; 12; 13; 28; 29; 30; 31; 32]%N).

Definition sample_lower (s : pystr) : pystr :=
  map (fun c => if (65 <=? c)%N && (c <=? 90)%N then (c + 32)%N else c) s.

Definition digits_value (s : pystr) : option Z :=
  match s with
  | [] => None
  | _ =>
      foldl (fun acc c =>
               match acc with
               | Some a =>
                   if (48 <=? c)%N && (c <=? 57)%N
                   then Some (10 * a + (Z.of_N c - 48))
                   else None
               | None => None
               end) (Some 0) s
  end.

Definition sample_int (s : pystr) : option Z :=
  match s with
  | 45%N :: s' => Z.opp <$> digits_value s'
  | 43%N :: s' => digits_value s'
  | _ => digits_value s
  end.

Definition sample_builtins : builtins :=
  mk_builtins sample_isspace sample_lower sample_int.

(** ** Vocabulary of the properties of the program *)

(** [r] is a pair of elements at distinct positions of [numbers], the
    smaller first, whose sum is as close to zero as that of any two. *)
Definition closest_in (numbers : list Z) (r : pair_result) : Prop :=
  exists a b,
    r = (Some a, Some b) /\ a <= b /\ occurs_pair numbers a b /\
    forall x y, occurs_pair numbers x y -> Z.abs (a + b) <= Z.abs (x + y).

(** Every list shown is sorted and is followed by a closest pair of it. *)
Definition shown_ok (out : list event) : Prop :=
  forall (k : nat) (numbers : list Z),
    out !! k = Some (PrintArray numbers) ->
    Sorted Z.le numbers /\
    exists r, out !! S k = Some (PrintResult r) /\ closest_in numbers r.

(** An event that shows no list. *)
Definition plain (ev : event) : Prop :=
  match ev with
  | PrintArray _ => False
  | _ => True
  end.

(** * Proofs *)

(** ** Subscripts *)

Lemma getitem_lookup (arr : list Z) (i : Z) (x : Z) :
  0 <= i -> arr !! Z.to_nat i = Some x -> getitem arr i = inr x.
Proof.
  intros Hi Hx. pose proof (lookup_lt_Some _ _ _ Hx) as Hlt.
  unfold getitem, len.
  destruct (i <? 0) eqn:Hneg; [apply Z.ltb_lt in Hneg; lia|].
  replace (0 <=? i) with true by (symmetry; apply Z.leb_le; lia).
  replace (i <? Z.of_nat (length arr)) with true
    by (symmetry; apply Z.ltb_lt; lia).
  cbn. rewrite Hx. reflexivity.
Qed.

Lemma getitem_inv (arr : list Z) (i : Z) (x : Z) :
  0 <= i -> getitem arr i = inr x ->
  i < len arr /\ arr !! Z.to_nat i = Some x.
Proof.
  intros Hi. unfold getitem.
  destruct (i <? 0) eqn:Hneg; [apply Z.ltb_lt in Hneg; lia|].
  destruct (0 <=? i); cbn; [|discriminate].
  destruct (i <? len arr) eqn:Hlt; [|discriminate].
  apply Z.ltb_lt in Hlt.
  destruct (arr !! Z.to_nat i); [|discriminate].
  intros [= ->]. auto.
Qed.

(** ** The loop as a step relation *)

(** An iteration brings the cursors closer by one position. *)
Lemma loop_body_gap arr st st' :
  loop_body arr st = inr st' ->
  right st' - left st' = right st - left st - 1.
Proof.
  unfold loop_body, bind, ret.
  destruct (getitem arr (left st)) as [e|x]; [discriminate|].
  destruct (getitem arr (right st)) as [e|y]; [discriminate|].
  destruct (closer (x + y) (min_sum st)); cbn;
    destruct (x + y <? 0); intros [= <-]; cbn; lia.
Qed.

Lemma while_loop_eq (arr : list Z) (st : scan_state) :
  while_loop arr st =
  if left st <? right st then
    let* st' := loop_body arr st in while_loop arr st'
  else ret st.
Proof.
  funelim (while_loop arr st);
    repeat match goal with
    | E : (left _ <? right _) = _ |- _ => rewrite E
    | E : loop_body _ _ = _ |- _ => rewrite E
    end; reflexivity.
Qed.

Lemma while_trace_eq (arr : list Z) (st : scan_state) :
  while_trace arr st =
  if left st <? right st then
    st :: match loop_body arr st with
          | inl _ => []
          | inr st' => while_trace arr st'
          end
  else [].
Proof.
  funelim (while_trace arr st);
    repeat match goal with
    | E : (left _ <? right _) = _ |- _ => rewrite E
    | E : loop_body _ _ = _ |- _ => rewrite E
    end; reflexivity.
Qed.

(** The body in closed form when both cursors are valid subscripts. *)
Lemma loop_body_lookup (arr : list Z) (st : scan_state) (x y : Z) :
  0 <= left st -> 0 <= right st ->
  arr !! Z.to_nat (left st) = Some x ->
  arr !! Z.to_nat (right st) = Some y ->
  loop_body arr st =
  inr (mk_state (if x + y <? 0 then left st + 1 else left st)
                (if x + y <? 0 then right st else right st - 1)
                (if closer (x + y) (min_sum st) then Int (x + y)
                 else min_sum st)
                (if closer (x + y) (min_sum st) then (Some x, Some y)
                 else result st)).
Proof.
  intros Hl Hr Hx Hy. unfold loop_body.
  rewrite (getitem_lookup _ _ _ Hl Hx), (getitem_lookup _ _ _ Hr Hy).
  unfold bind, ret.
  destruct (closer (x + y) (min_sum st)); destruct (x + y <? 0); reflexivity.
Qed.

Lemma loop_body_inv (arr : list Z) (st st1 : scan_state) :
  0 <= left st -> left st < right st ->
  loop_body arr st = inr st1 ->
  exists x y,
    arr !! Z.to_nat (left st) = Some x /\
    arr !! Z.to_nat (right st) = Some y /\
    right st < len arr /\
    st1 = mk_state (if x + y <? 0 then left st + 1 else left st)
                   (if x + y <? 0 then right st else right st - 1)
                   (if closer (x + y) (min_sum st) then Int (x + y)
                    else min_sum st)
                   (if closer (x + y) (min_sum st) then (Some x, Some y)
                    else result st).
Proof.
  intros Hl Hlr Hb.
  destruct (getitem arr (left st)) as [e|x] eqn:Hx;
    [unfold loop_body in Hb; rewrite Hx in Hb; discriminate|].
  destruct (getitem arr (right st)) as [e|y] eqn:Hy;
    [unfold loop_body in Hb; rewrite Hx, Hy in Hb; discriminate|].
  apply getitem_inv in Hx as [_ Hx]; [|lia].
  apply getitem_inv in Hy as [Hlen Hy]; [|lia].
  exists x, y. repeat split; try assumption.
  rewrite (loop_body_lookup arr st x y) in Hb by (assumption || lia).
  congruence.
Qed.

(** With both cursors inside the list the loop terminates normally, and
    [while_trace] lists its iterations. *)
Lemma while_loop_exec (arr : list Z) (st : scan_state) :
  0 <= left st -> right st < len arr ->
  exists st', while_loop arr st = inr st' /\
              exec arr st (while_trace arr st) st'.
Proof.
  remember (gap st) as n eqn:Hn. revert st Hn.
  induction n as [n IH] using lt_wf_ind. intros st -> Hl Hr.
  rewrite while_loop_eq, while_trace_eq.
  destruct (left st <? right st) eqn:Hc.
  - apply Z.ltb_lt in Hc.
    destruct (lookup_lt_is_Some_2 arr (Z.to_nat (left st))) as [x Hx];
      [unfold len in Hr; lia|].
    destruct (lookup_lt_is_Some_2 arr (Z.to_nat (right st))) as [y Hy];
      [unfold len in Hr; lia|].
    pose proof (loop_body_lookup arr st x y Hl ltac:(lia) Hx Hy) as Hb.
    rewrite Hb. cbn.
    match type of Hb with _ = inr ?s => set (st1 := s) in * end.
    destruct (IH (gap st1)) with (st := st1) as (st' & Hw & He).
    + apply loop_body_gap in Hb. unfold gap. lia.
    + reflexivity.
    + subst st1; cbn; destruct (x + y <? 0); lia.
    + subst st1; cbn; destruct (x + y <? 0); lia.
    + exists st'. split; [assumption|].
      eapply exec_iter; eauto.
  - apply Z.ltb_ge in Hc. exists st. split; [reflexivity|].
    constructor. assumption.
Qed.

(** The relation determines the function. *)
Lemma exec_while_loop (arr : list Z) st tr st' :
  exec arr st tr st' ->
  while_loop arr st = inr st' /\ while_trace arr st = tr.
Proof.
  induction 1 as [st Hc|st st1 tr st' Hc Hb _ [IHw IHt]];
    rewrite while_loop_eq, while_trace_eq.
  - apply Z.ltb_ge in Hc. rewrite Hc. auto.
  - apply Z.ltb_lt in Hc. rewrite Hc, Hb. cbn. rewrite IHt. auto.
Qed.

(** An iteration moves exactly one cursor, by one position. *)
Lemma loop_body_cursors (arr : list Z) (st st1 : scan_state) :
  loop_body arr st = inr st1 ->
  (left st1 = left st + 1 /\ right st1 = right st) \/
  (left st1 = left st /\ right st1 = right st - 1).
Proof.
  unfold loop_body, bind, ret.
  destruct (getitem arr (left st)) as [e|x]; [discriminate|].
  destruct (getitem arr (right st)) as [e|y]; [discriminate|].
  destruct (closer (x + y) (min_sum st));
    destruct (x + y <? 0); intros [= <-]; cbn; auto.
Qed.

(** The loop stops exactly when the cursors meet: each iteration moves one
    cursor by one, so there are [right - left] of them. *)
Lemma exec_meet (arr : list Z) st tr st' :
  exec arr st tr st' ->
  left st <= right st ->
  left st' = right st' /\
  Z.of_nat (length tr) = right st - left st /\
  Forall (fun u => left st <= left u /\ left u < right u /\
                   right u <= right st) tr /\
  left st <= left st' /\ right st' <= right st.
Proof.
  induction 1 as [st Hc|st st1 tr st' Hc Hb _ IH]; intros Hle.
  - repeat split; try (cbn; lia). constructor.
  - pose proof (loop_body_gap _ _ _ Hb) as Hg.
    assert (Hmono : left st <= left st1 /\ right st1 <= right st)
      by (destruct (loop_body_cursors _ _ _ Hb); lia).
    destruct IH as (Hm & Hlen & Hall & Hl' & Hr'); [lia|].
    repeat split; try (cbn; lia).
    constructor; [lia|].
    eapply Forall_impl; [exact Hall|]. cbn. intros u ?. lia.
Qed.

(** ** Sorting *)

Lemma list_sort_Sorted (arr : list Z) : Sorted Z.le (list_sort arr).
Proof. apply (Sorted_merge_sort Z.le). Qed.

Lemma list_sort_Permutation (arr : list Z) : list_sort arr ≡ₚ arr.
Proof. apply (merge_sort_Permutation Z.le). Qed.

Lemma list_sort_length (arr : list Z) : length (list_sort arr) = length arr.
Proof. apply Permutation_length, list_sort_Permutation. Qed.

(** A list has one sorted rearrangement only, so [list_sort] is what any
    correct sorting procedure computes. *)
Lemma list_sort_unique (arr sorted : list Z) :
  Sorted Z.le sorted -> sorted ≡ₚ arr -> list_sort arr = sorted.
Proof.
  intros Hs Hp. apply (Sorted_unique Z.le).
  - apply list_sort_Sorted.
  - assumption.
  - rewrite list_sort_Permutation. symmetry. assumption.
Qed.

Lemma list_sort_perm (arr1 arr2 : list Z) :
  arr1 ≡ₚ arr2 -> list_sort arr1 = list_sort arr2.
Proof.
  intros Hp. apply list_sort_unique; [apply list_sort_Sorted|].
  rewrite list_sort_Permutation. symmetry. assumption.
Qed.

(** In a sorted list the elements grow with the positions. *)
Lemma Sorted_lookup_le (l : list Z) (i j : nat) (x y : Z) :
  Sorted Z.le l -> (i <= j)%nat ->
  l !! i = Some x -> l !! j = Some y -> x <= y.
Proof.
  intros Hs. apply (Sorted_StronglySorted Z.le) in Hs.
  revert i j. induction Hs as [|z l _ IH Hall]; intros i j Hij Hi Hj.
  - rewrite lookup_nil in Hi. discriminate.
  - destruct i as [|i], j as [|j]; cbn in Hi, Hj.
    + simplify_eq. lia.
    + simplify_eq. rewrite Forall_forall in Hall.
      apply Hall. eapply list_elem_of_lookup_2. eassumption.
    + lia.
    + apply (IH i j); [lia|assumption..].
Qed.

(** ** Pairs of distinct positions *)

Lemma occurs_pair_perm (l l' : list Z) (a b : Z) :
  l ≡ₚ l' -> occurs_pair l a b -> occurs_pair l' a b.
Proof.
  intros Hp (i & j & Hij & Hi & Hj).
  apply Permutation_inj in Hp as (_ & f & Hinj & Hf).
  exists (f i), (f j). rewrite <- !Hf. repeat split; try assumption.
  intros Heq. apply Hij, Hinj, Heq.
Qed.

Lemma occurs_pair_sym (l : list Z) (a b : Z) :
  occurs_pair l a b -> occurs_pair l b a.
Proof. intros (i & j & Hij & Hi & Hj). exists j, i. auto. Qed.

(** ** The comparison against the incumbent *)

Lemma closer_Inf (c : Z) : closer c Inf = true.
Proof. reflexivity. Qed.

Lemma closer_Int (c m : Z) :
  closer c (Int m) = true <-> Z.abs c < Z.abs m.
Proof. unfold closer. apply Z.ltb_lt. Qed.

Lemma closer_Int_false (c m : Z) :
  closer c (Int m) = false <-> Z.abs m <= Z.abs c.
Proof. unfold closer. apply Z.ltb_ge. Qed.

(** After the update step the incumbent is an integer, no farther from zero
    than the current sum and than the previous incumbent. *)
Lemma update_bound (c : Z) (m : number) :
  exists m', (if closer c m then Int c else m) = Int m' /\
             Z.abs m' <= Z.abs c /\
             (forall k, m = Int k -> Z.abs m' <= Z.abs k).
Proof.
  destruct m as [|k].
  - exists c. rewrite closer_Inf. repeat split; [lia|discriminate].
  - destruct (closer c (Int k)) eqn:Hc.
    + apply closer_Int in Hc. exists c.
      repeat split; [lia|]. intros ? [= <-]. lia.
    + apply closer_Int_false in Hc. exists k.
      repeat split; [lia|]. intros ? [= <-]. lia.
Qed.

(** ** The invariant of the scan *)

Section Scan.
Variable s : list Z.
Hypothesis s_sorted : Sorted Z.le s.

Lemma loop_body_best_ok (st st1 : scan_state) :
  0 <= left st -> left st < right st ->
  loop_body s st = inr st1 ->
  best_ok s st -> best_ok s st1 /\ min_sum st1 <> Inf /\ 0 <= left st1.
Proof.
  intros Hl Hlr Hb Hbest.
  destruct (loop_body_inv _ _ _ Hl Hlr Hb) as (x & y & Hx & Hy & _ & ->).
  unfold best_ok in *. cbn.
  split; [|split].
  - destruct (closer (x + y) (min_sum st)); [|assumption].
    exists (Z.to_nat (left st)), (Z.to_nat (right st)), x, y.
    repeat split; try assumption; try reflexivity. lia.
  - destruct (update_bound (x + y) (min_sum st)) as (m' & -> & _).
    discriminate.
  - destruct (x + y <? 0); lia.
Qed.

Lemma loop_body_excluded_ok (st st1 : scan_state) :
  0 <= left st -> left st < right st ->
  loop_body s st = inr st1 ->
  excluded_ok s st -> excluded_ok s st1.
Proof.
  intros Hl Hlr Hb Hexc.
  destruct (loop_body_inv _ _ _ Hl Hlr Hb) as (x & y & Hx & Hy & _ & ->).
  intros i j xi xj Hij Hi Hj Hout. cbn in Hout |- *.
  destruct (update_bound (x + y) (min_sum st)) as (m' & -> & Hcur & Hold).
  exists m'. split; [reflexivity|].
  destruct (decide (Z.of_nat i < left st \/ right st < Z.of_nat j))
    as [Hout0|Hin].
  { destruct (Hexc i j xi xj Hij Hi Hj Hout0) as (m & Hm & Hle).
    specialize (Hold m Hm). lia. }
  destruct (x + y <? 0) eqn:Hneg.
  - apply Z.ltb_lt in Hneg.
    assert (i = Z.to_nat (left st)) by lia. subst i.
    assert (xi = x) by congruence. subst xi.
    assert (xj <= y)
      by (apply (Sorted_lookup_le s j (Z.to_nat (right st)));
          auto; lia).
    lia.
  - apply Z.ltb_ge in Hneg.
    assert (j = Z.to_nat (right st)) by lia. subst j.
    assert (xj = y) by congruence. subst xj.
    assert (x <= xi)
      by (apply (Sorted_lookup_le s (Z.to_nat (left st)) i);
          auto; lia).
    lia.
Qed.

(** The invariant holds on exit, where the window is empty. *)
Lemma exec_invariant (st : scan_state) tr (st' : scan_state) :
  exec s st tr st' ->
  0 <= left st -> best_ok s st -> excluded_ok s st ->
  best_ok s st' /\ excluded_ok s st' /\ (tr <> [] -> min_sum st' <> Inf).
Proof.
  induction 1 as [st Hc|st st1 tr st' Hc Hb Hex IH];
    intros Hl Hbest Hexc.
  - auto.
  - destruct (loop_body_best_ok _ _ Hl Hc Hb Hbest) as (Hbest1 & Hfin & Hl1).
    pose proof (loop_body_excluded_ok _ _ Hl Hc Hb Hexc) as Hexc1.
    destruct (IH Hl1 Hbest1 Hexc1) as (Hbest' & Hexc' & _).
    repeat split; try assumption. intros _.
    (* once an integer, the incumbent stays one *)
    clear - Hex Hfin Hl1.
    induction Hex as [st Hc|st st1 tr st' Hc Hb _ IH]; [assumption|].
    apply IH.
    + destruct (loop_body_inv _ _ _ Hl1 Hc Hb) as (x & y & _ & _ & _ & ->).
      cbn. destruct (update_bound (x + y) (min_sum st)) as (m' & -> & _).
      discriminate.
    + destruct (loop_body_cursors _ _ _ Hb); lia.
Qed.

(** On exit the recorded pair is a closest pair of [s]. *)
Lemma exec_closest (tr : list scan_state) (st' : scan_state) :
  (2 <= length s)%nat ->
  exec s (init_state s) tr st' ->
  exists a b,
    result st' = (Some a, Some b) /\ a <= b /\
    occurs_pair s a b /\
    forall x y, occurs_pair s x y -> Z.abs (a + b) <= Z.abs (x + y).
Proof.
  intros Hlen Hex.
  assert (Hlr : left (init_state s) < right (init_state s))
    by (cbn; unfold len; lia).
  destruct (exec_invariant _ _ _ Hex) as (Hbest & Hexc & Hfin).
  - cbn. lia.
  - reflexivity.
  - intros i j x y Hij Hi Hj. cbn. unfold len.
    apply lookup_lt_Some in Hj. lia.
  - destruct (exec_meet _ _ _ _ Hex) as (Hmeet & _); [lia|].
    assert (Hne : tr <> []) by (inversion Hex; [lia|discriminate]).
    specialize (Hfin Hne). unfold best_ok in Hbest.
    destruct (min_sum st') as [|m] eqn:Hm; [congruence|].
    destruct Hbest as (i & j & a & b & Hij & Hi & Hj & -> & Hres).
    exists a, b. repeat split.
    + assumption.
    + apply (Sorted_lookup_le s i j); auto. lia.
    + exists i, j. repeat split; auto. lia.
    + assert (Hord : forall (p q : nat) (x y : Z), (p < q)%nat ->
                s !! p = Some x -> s !! q = Some y ->
                Z.abs (a + b) <= Z.abs (x + y)).
      { intros p q x y Hpq Hp Hq.
        destruct (Hexc p q x y Hpq Hp Hq) as (m & Hm' & Hle); [lia|].
        congruence. }
      intros x y (p & q & Hpq & Hp & Hq).
      destruct (decide (p < q)%nat).
      * eapply Hord; eauto.
      * rewrite (Z.add_comm x y). apply (Hord q p); auto. lia.
Qed.
End Scan.

(** ** Which of several closest pairs is kept *)

Lemma closer_trans (c d : Z) (m : number) :
  closer c (Int d) = true -> closer d m = true -> closer c m = true.
Proof.
  destruct m as [|k]; [reflexivity|].
  rewrite !closer_Int. lia.
Qed.

Lemma closer_false_trans (c d : Z) (m : number) :
  closer c m = true -> closer d m = false -> Z.abs c < Z.abs d.
Proof.
  destruct m as [|k]; [rewrite (closer_Inf d); discriminate|].
  rewrite closer_Int, closer_Int_false. lia.
Qed.

(** Either no iteration improves on the incumbent of the initial state, or
    the final incumbent was recorded at iteration [k], whose sum is strictly
    closer to zero than that of every earlier iteration and at least as
    close as that of every iteration. *)
Lemma exec_first_min (arr : list Z) st tr st' :
  exec arr st tr st' ->
  0 <= left st ->
  (min_sum st' = min_sum st /\ result st' = result st /\
   forall k u x y, tr !! k = Some u -> at_cursors arr u x y ->
                   closer (x + y) (min_sum st) = false)
  \/
  (exists (k : nat) u x y,
     tr !! k = Some u /\ at_cursors arr u x y /\
     min_sum st' = Int (x + y) /\ result st' = (Some x, Some y) /\
     closer (x + y) (min_sum st) = true /\
     forall (k' : nat) u' x' y',
       tr !! k' = Some u' -> at_cursors arr u' x' y' ->
       Z.abs (x + y) <= Z.abs (x' + y') /\
       ((k' < k)%nat -> Z.abs (x + y) < Z.abs (x' + y'))).
Proof.
  induction 1 as [st Hc|st st1 tr st' Hc Hb Hex IH]; intros Hl.
  - left. repeat split. intros k u x y Hk. rewrite lookup_nil in Hk.
    discriminate.
  - destruct (loop_body_inv _ _ _ Hl Hc Hb) as (x0 & y0 & Hx0 & Hy0 & _ & Hst1).
    assert (Hl1 : 0 <= left st1)
      by (destruct (loop_body_cursors _ _ _ Hb); lia).
    assert (Hm1 : min_sum st1 =
                  if closer (x0 + y0) (min_sum st) then Int (x0 + y0)
                  else min_sum st) by (subst st1; reflexivity).
    assert (Hr1 : result st1 =
                  if closer (x0 + y0) (min_sum st) then (Some x0, Some y0)
                  else result st) by (subst st1; reflexivity).
    clear Hst1.
    assert (Hhead : forall x y, at_cursors arr st x y -> x = x0 /\ y = y0)
      by (intros x y [? ?]; split; congruence).
    destruct (closer (x0 + y0) (min_sum st)) eqn:Hcl;
      destruct (IH Hl1) as [(Hm & Hr & Hno)|
                            (k & u & x & y & Hk & Hu & Hm & Hr & Hbeat & Hall)].
    + (* recorded now, never replaced *)
      right. exists 0%nat, st, x0, y0.
      split_and!; [reflexivity|split; assumption|congruence..|assumption|].
      intros [|k'] u' x' y' Hk' Hu'; cbn in Hk'; (split; [|lia]).
      * simplify_eq. destruct (Hhead _ _ Hu') as [-> ->]. lia.
      * specialize (Hno _ _ _ _ Hk' Hu'). rewrite Hm1 in Hno.
        apply closer_Int_false in Hno. lia.
    + (* recorded now, replaced at iteration k of the rest *)
      rewrite Hm1 in Hbeat.
      right. exists (S k), u, x, y.
      split_and!; [assumption..|eapply closer_trans; eassumption|].
      apply closer_Int in Hbeat.
      intros [|k'] u' x' y' Hk' Hu'; cbn in Hk'.
      * simplify_eq. destruct (Hhead _ _ Hu') as [-> ->]. lia.
      * destruct (Hall _ _ _ _ Hk' Hu'). split; [assumption|]. intros ?.
        auto with lia.
    + (* not recorded now, nor later *)
      left. split_and!; [congruence..|].
      intros [|k] u x y Hk Hu; cbn in Hk.
      * simplify_eq. destruct (Hhead _ _ Hu) as [-> ->]. assumption.
      * rewrite <- Hm1. eapply Hno; eassumption.
    + (* not recorded now, recorded at iteration k of the rest *)
      rewrite Hm1 in Hbeat.
      right. exists (S k), u, x, y.
      split_and!; [assumption..|].
      pose proof (closer_false_trans _ _ _ Hbeat Hcl).
      intros [|k'] u' x' y' Hk' Hu'; cbn in Hk'.
      * simplify_eq. destruct (Hhead _ _ Hu') as [-> ->]. lia.
      * destruct (Hall _ _ _ _ Hk' Hu'). split; [assumption|]. intros ?.
        auto with lia.
Qed.

(** ** The iterations, one after the other *)

Lemma exec_head (arr : list Z) st tr st' :
  exec arr st tr st' ->
  (tr = [] /\ st' = st /\ right st <= left st) \/
  (tr !! 0%nat = Some st /\ left st < right st).
Proof. destruct 1; [left|right]; auto. Qed.

(** Every state of the trace passes the loop test, and the body takes it to
    the next state of the trace, or to the final state. *)
Lemma exec_steps (arr : list Z) st tr st' :
  exec arr st tr st' ->
  forall (k : nat) u, tr !! k = Some u ->
    left u < right u /\
    exists u1, loop_body arr u = inr u1 /\
               (tr !! S k = Some u1 \/ (S k = length tr /\ u1 = st')).
Proof.
  induction 1 as [st Hc|st st1 tr st' Hc Hb Hex IH]; intros k u Hk.
  - rewrite lookup_nil in Hk. discriminate.
  - destruct k as [|k]; cbn in Hk.
    + simplify_eq. split; [assumption|]. exists st1. split; [assumption|].
      destruct (exec_head _ _ _ _ Hex) as [(-> & -> & _)|[Hh _]]; auto.
    + destruct (IH _ _ Hk) as (Hlt & u1 & Hb1 & Hnext).
      split; [assumption|]. exists u1. split; [assumption|].
      cbn. destruct Hnext as [?|[? ?]]; auto.
Qed.

(** ** The whole function *)

Lemma find_short (arr : list Z) :
  (length arr < 2)%nat ->
  find_closest_sum_to_zero arr =
  (arr, inl (ValueError "Array must contain at least 2 elements")).
Proof.
  intros Hlen. unfold find_closest_sum_to_zero, len.
  replace (Z.of_nat (length arr) <? 2) with true
    by (symmetry; apply Z.ltb_lt; lia).
  reflexivity.
Qed.

(** On a list of two elements or more the function sorts the list, runs
    the loop to its normal exit and returns the recorded pair. *)
Lemma find_exec (arr : list Z) :
  (2 <= length arr)%nat ->
  exists st',
    exec (list_sort arr) (init_state (list_sort arr))
         (while_trace (list_sort arr) (init_state (list_sort arr))) st' /\
    while_loop (list_sort arr) (init_state (list_sort arr)) = inr st' /\
    find_closest_sum_to_zero arr = (list_sort arr, inr (result st')).
Proof.
  intros Hlen.
  destruct (while_loop_exec (list_sort arr) (init_state (list_sort arr)))
    as (st' & Hw & Hex); [cbn; lia|cbn; lia|].
  exists st'. split; [assumption|]. split; [assumption|].
  unfold find_closest_sum_to_zero, len.
  replace (Z.of_nat (length arr) <? 2) with false
    by (symmetry; apply Z.ltb_ge; lia).
  cbn. rewrite Hw. reflexivity.
Qed.

(** The returned pair: two elements at distinct positions of the argument,
    the smaller first, whose sum is as close to zero as that of any two. *)
Lemma find_closest (arr : list Z) :
  (2 <= length arr)%nat ->
  exists a b,
    find_closest_sum_to_zero arr = (list_sort arr, inr (Some a, Some b)) /\
    a <= b /\ occurs_pair arr a b /\
    forall x y, occurs_pair arr x y -> Z.abs (a + b) <= Z.abs (x + y).
Proof.
  intros Hlen. destruct (find_exec arr Hlen) as (st' & Hex & _ & Hfind).
  destruct (exec_closest (list_sort arr) (list_sort_Sorted arr) _ _
              ltac:(rewrite list_sort_length; exact Hlen) Hex)
    as (a & b & Hres & Hab & Hocc & Hmin).
  exists a, b. rewrite Hfind, Hres. split_and!; [reflexivity|assumption| |].
  - eapply occurs_pair_perm; [apply list_sort_Permutation|assumption].
  - intros x y Hxy. apply Hmin.
    eapply occurs_pair_perm; [symmetry; apply list_sort_Permutation|].
    assumption.
Qed.

(** The outcome depends on the argument through its sorted form only. *)
Lemma find_sort_eq (arr1 arr2 : list Z) :
  list_sort arr1 = list_sort arr2 ->
  snd (find_closest_sum_to_zero arr1) = snd (find_closest_sum_to_zero arr2).
Proof.
  intros Hs.
  assert (Hlen : length arr1 = length arr2)
    by (rewrite <- (list_sort_length arr1), Hs; apply list_sort_length).
  unfold find_closest_sum_to_zero, len. rewrite Hlen.
  destruct (Z.of_nat (length arr2) <? 2); [reflexivity|].
  cbn. rewrite Hs. reflexivity.
Qed.

(** Two runs of the function.  In the second, the pairs (-3, 3) and
    (-2, 2) both sum to zero; the scan meets (-3, 3) first and keeps it. *)
Example demo_mixed_signs :
  find_closest_sum_to_zero [-8; 4; 5; -10; 3] =
  ([-10; -8; 3; 4; 5], inr (Some (-8), Some 5)).
Proof. vm_compute. reflexivity. Qed.

Example demo_tie_keeps_first :
  find_closest_sum_to_zero [2; -3; 4; 3; -2] =
  ([-3; -2; 2; 3; 4], inr (Some (-3), Some 3)).
Proof. vm_compute. reflexivity. Qed.

(** * The properties of the specification *)

(** C1. For a list of length at least 2 the function returns a pair (a, b)
    whose components stand at two distinct positions of the argument (so a
    value returned twice occurs twice), and no two elements at distinct
    positions have a sum closer to zero than a + b. *)
Theorem closest_pair_correct (arr : list Z) :
  (2 <= length arr)%nat ->
  exists a b,
    snd (find_closest_sum_to_zero arr) = inr (Some a, Some b) /\
    (exists i j : nat, i <> j /\ arr !! i = Some a /\ arr !! j = Some b) /\
    forall (i j : nat) (x y : Z),
      i <> j -> arr !! i = Some x -> arr !! j = Some y ->
      Z.abs (a + b) <= Z.abs (x + y).
Proof.
  intros Hlen.
  destruct (find_closest arr Hlen) as (a & b & Hfind & _ & Hocc & Hmin).
  exists a, b. rewrite Hfind. split_and!; [reflexivity|exact Hocc|].
  intros i j x y Hij Hi Hj. apply Hmin. exists i, j. auto.
Qed.

Lemma closest_pair_correct_witness :
  exists a b,
    snd (find_closest_sum_to_zero [-8; 4; 5; -10; 3]) = inr (Some a, Some b) /\
    (exists i j : nat, i <> j /\ [-8; 4; 5; -10; 3] !! i = Some a /\
                       [-8; 4; 5; -10; 3] !! j = Some b) /\
    forall (i j : nat) (x y : Z),
      i <> j -> [-8; 4; 5; -10; 3] !! i = Some x ->
      [-8; 4; 5; -10; 3] !! j = Some y ->
      Z.abs (a + b) <= Z.abs (x + y).
Proof. apply (closest_pair_correct [-8; 4; 5; -10; 3]). simpl. lia. Defined.

(** C2. The function raises exactly when its argument has fewer than two
    elements; the exception is then the ValueError whose message says that
    the array must contain at least 2 elements, nothing is returned and the
    argument is untouched. *)
Theorem length_guard (arr : list Z) :
  ((exists e, snd (find_closest_sum_to_zero arr) = inl e) <->
   (length arr < 2)%nat) /\
  (forall e, snd (find_closest_sum_to_zero arr) = inl e ->
             e = ValueError "Array must contain at least 2 elements" /\
             fst (find_closest_sum_to_zero arr) = arr).
Proof.
  destruct (decide (length arr < 2)%nat) as [Hshort|Hlong].
  - rewrite (find_short arr Hshort). cbn. split.
    + split; [auto|]. intros _. eexists. reflexivity.
    + intros e [= <-]. auto.
  - destruct (find_exec arr) as (st' & _ & _ & Hfind); [lia|].
    rewrite Hfind. cbn. split.
    + split; [intros [e ?]; discriminate|lia].
    + intros e ?. discriminate.
Qed.

(** C10. For a list of length at least 2 the returned pair (a, b) has
    a <= b: its components are read from the sorted list at positions
    left < right. *)
Theorem result_ordered (arr : list Z) :
  (2 <= length arr)%nat ->
  exists a b,
    snd (find_closest_sum_to_zero arr) = inr (Some a, Some b) /\ a <= b.
Proof.
  intros Hlen.
  destruct (find_closest arr Hlen) as (a & b & Hfind & Hab & _).
  exists a, b. rewrite Hfind. auto.
Qed.

Lemma result_ordered_witness :
  exists a b,
    snd (find_closest_sum_to_zero [3; -1; 2]) = inr (Some a, Some b) /\
    a <= b.
Proof. apply (result_ordered [3; -1; 2]). simpl. lia. Defined.

(** C7. After a call on a list of length at least 2, which returns
    normally, the caller's list is sorted in non-decreasing order and holds
    the same elements as before, each as many times. *)
Theorem input_left_sorted (arr : list Z) :
  (2 <= length arr)%nat ->
  (exists r, snd (find_closest_sum_to_zero arr) = inr r) /\
  Sorted Z.le (fst (find_closest_sum_to_zero arr)) /\
  fst (find_closest_sum_to_zero arr) ≡ₚ arr.
Proof.
  intros Hlen. destruct (find_exec arr Hlen) as (st' & _ & _ & ->). cbn.
  split_and!.
  - eexists. reflexivity.
  - apply list_sort_Sorted.
  - apply list_sort_Permutation.
Qed.

Lemma input_left_sorted_witness :
  (exists r, snd (find_closest_sum_to_zero [1; 60; -10; 70; -80; 85]) = inr r) /\
  Sorted Z.le (fst (find_closest_sum_to_zero [1; 60; -10; 70; -80; 85])) /\
  fst (find_closest_sum_to_zero [1; 60; -10; 70; -80; 85])
    ≡ₚ [1; 60; -10; 70; -80; 85].
Proof. apply (input_left_sorted [1; 60; -10; 70; -80; 85]). simpl. lia. Defined.

(** C8. For a list of length at least 2, the function returns on any sorted
    copy of the list what it returns on the list itself; the copy is left
    as it was, so a second run on it returns the same again. *)
Theorem sorted_copy_same_result (arr sorted : list Z) :
  (2 <= length arr)%nat ->
  Sorted Z.le sorted -> sorted ≡ₚ arr ->
  snd (find_closest_sum_to_zero sorted) = snd (find_closest_sum_to_zero arr) /\
  fst (find_closest_sum_to_zero sorted) = sorted /\
  snd (find_closest_sum_to_zero (fst (find_closest_sum_to_zero sorted))) =
  snd (find_closest_sum_to_zero arr).
Proof.
  intros Hlen Hs Hp.
  assert (Heq : snd (find_closest_sum_to_zero sorted) =
                snd (find_closest_sum_to_zero arr))
    by (apply find_sort_eq, list_sort_perm, Hp).
  assert (Hfst : fst (find_closest_sum_to_zero sorted) = sorted).
  { destruct (find_exec sorted) as (st' & _ & _ & ->).
    - rewrite (Permutation_length Hp). exact Hlen.
    - cbn. apply list_sort_unique; [assumption|reflexivity]. }
  rewrite Hfst. auto.
Qed.

Lemma sorted_copy_same_result_witness :
  snd (find_closest_sum_to_zero [-10; -8; 3; 4; 5]) =
  snd (find_closest_sum_to_zero [-8; 4; 5; -10; 3]) /\
  fst (find_closest_sum_to_zero [-10; -8; 3; 4; 5]) = [-10; -8; 3; 4; 5] /\
  snd (find_closest_sum_to_zero
         (fst (find_closest_sum_to_zero [-10; -8; 3; 4; 5]))) =
  snd (find_closest_sum_to_zero [-8; 4; 5; -10; 3]).
Proof.
  apply (sorted_copy_same_result [-8; 4; 5; -10; 3] [-10; -8; 3; 4; 5]).
  - simpl. lia.
  - repeat constructor; lia.
  - change [-10; -8; 3; 4; 5] with (list_sort [-8; 4; 5; -10; 3]).
    apply list_sort_Permutation.
Defined.

(** C3. The recorded pair changes only in an iteration whose sum is
    strictly closer to zero than the incumbent ([abs(current_sum) <
    abs(min_sum)]); hence the pair returned is the one under the cursors at
    the first iteration, in the order of the scan, that reaches the least
    absolute sum of all iterations: every earlier iteration has a strictly
    larger absolute sum, every later one an absolute sum at least as
    large. *)
Theorem first_minimal_pair_wins (arr : list Z) :
  (2 <= length arr)%nat ->
  let s := list_sort arr in
  let tr := while_trace s (init_state s) in
  (forall u u1 x y,
     0 <= left u -> left u < right u ->
     loop_body s u = inr u1 -> at_cursors s u x y ->
     if closer (x + y) (min_sum u)
     then min_sum u1 = Int (x + y) /\ result u1 = (Some x, Some y)
     else min_sum u1 = min_sum u /\ result u1 = result u) /\
  exists (k : nat) u x y,
    tr !! k = Some u /\ at_cursors s u x y /\
    snd (find_closest_sum_to_zero arr) = inr (Some x, Some y) /\
    forall (k' : nat) u' x' y',
      tr !! k' = Some u' -> at_cursors s u' x' y' ->
      Z.abs (x + y) <= Z.abs (x' + y') /\
      ((k' < k)%nat -> Z.abs (x + y) < Z.abs (x' + y')).
Proof.
  intros Hlen s tr. split.
  - intros u u1 x y Hl Hlr Hb [Hx Hy].
    rewrite (loop_body_lookup s u x y) in Hb by (assumption || lia).
    injection Hb as <-. cbn.
    destruct (closer (x + y) (min_sum u)); auto.
  - destruct (find_exec arr Hlen) as (st' & Hex & _ & Hfind).
    fold s in Hex, Hfind. fold tr in Hex. rewrite Hfind. cbn.
    destruct (exec_first_min _ _ _ _ Hex)
      as [(_ & _ & Hno)|(k & u & x & y & Hk & Hu & _ & Hr & _ & Hall)];
      [cbn; lia| |].
    + exfalso.
      destruct (exec_head _ _ _ _ Hex) as [(_ & _ & Hge)|[Hh Hlt]].
      * pose proof (list_sort_length arr) as Hs. fold s in Hs.
        change (len s - 1 <= 0) in Hge. unfold len in Hge. lia.
      * destruct (exec_steps _ _ _ _ Hex _ _ Hh) as (_ & u1 & Hb & _).
        destruct (loop_body_inv s (init_state s) u1) as (x & y & Hx & Hy & _);
          [cbn; lia|assumption..|].
        specialize (Hno 0%nat (init_state s) x y Hh (conj Hx Hy)).
        cbn in Hno. rewrite closer_Inf in Hno. discriminate.
    + exists k, u, x, y. rewrite Hr. auto.
Qed.

Lemma first_minimal_pair_wins_witness :
  let s := list_sort [2; -3; 4; 3; -2] in
  let tr := while_trace s (init_state s) in
  (forall u u1 x y,
     0 <= left u -> left u < right u ->
     loop_body s u = inr u1 -> at_cursors s u x y ->
     if closer (x + y) (min_sum u)
     then min_sum u1 = Int (x + y) /\ result u1 = (Some x, Some y)
     else min_sum u1 = min_sum u /\ result u1 = result u) /\
  exists (k : nat) u x y,
    tr !! k = Some u /\ at_cursors s u x y /\
    snd (find_closest_sum_to_zero [2; -3; 4; 3; -2]) = inr (Some x, Some y) /\
    forall (k' : nat) u' x' y',
      tr !! k' = Some u' -> at_cursors s u' x' y' ->
      Z.abs (x + y) <= Z.abs (x' + y') /\
      ((k' < k)%nat -> Z.abs (x + y) < Z.abs (x' + y')).
Proof. apply (first_minimal_pair_wins [2; -3; 4; 3; -2]). simpl. lia. Defined.

(** C4. In every iteration a strictly negative sum advances [left] by one
    and leaves [right], any other sum (zero included) retreats [right] by
    one and leaves [left].  The loop has no other exit than its test: from
    the initial state it performs one iteration less than the list has
    elements, each from a state with left < right to the next state of the
    trace, and it ends with the two cursors equal. *)
Theorem cursor_movement (arr : list Z) :
  (2 <= length arr)%nat ->
  let s := list_sort arr in
  let tr := while_trace s (init_state s) in
  (forall u u1 x y,
     0 <= left u -> left u < right u ->
     loop_body s u = inr u1 -> at_cursors s u x y ->
     (x + y < 0 -> left u1 = left u + 1 /\ right u1 = right u) /\
     (0 <= x + y -> left u1 = left u /\ right u1 = right u - 1)) /\
  exists st',
    while_loop s (init_state s) = inr st' /\
    left st' = right st' /\
    length tr = (length arr - 1)%nat /\
    tr !! 0%nat = Some (init_state s) /\
    forall (k : nat) u, tr !! k = Some u ->
      left u < right u /\
      exists u1, loop_body s u = inr u1 /\
                 (tr !! S k = Some u1 \/ (S k = length tr /\ u1 = st')).
Proof.
  intros Hlen s tr. split.
  - intros u u1 x y Hl Hlr Hb [Hx Hy].
    rewrite (loop_body_lookup s u x y) in Hb by (assumption || lia).
    injection Hb as <-. cbn.
    destruct (x + y <? 0) eqn:Hneg;
      [apply Z.ltb_lt in Hneg|apply Z.ltb_ge in Hneg]; split; intros; lia.
  - destruct (find_exec arr Hlen) as (st' & Hex & Hw & _).
    fold s in Hex, Hw. fold tr in Hex.
    assert (Hs : length s = length arr) by apply list_sort_length.
    destruct (exec_meet _ _ _ _ Hex) as (Hmeet & Hcount & _);
      [change (0 <= len s - 1); unfold len; lia|].
    change (Z.of_nat (length tr) = len s - 1 - 0) in Hcount.
    unfold len in Hcount.
    exists st'. split_and!; [assumption..|lia| |].
    + destruct (exec_head _ _ _ _ Hex) as [(_ & _ & Hge)|[Hh _]];
        [|assumption].
      change (len s - 1 <= 0) in Hge. unfold len in Hge. lia.
    + apply (exec_steps _ _ _ _ Hex).
Qed.

Lemma cursor_movement_witness :
  let s := list_sort [-1; 2; -3; 4; -5; 1] in
  let tr := while_trace s (init_state s) in
  (forall u u1 x y,
     0 <= left u -> left u < right u ->
     loop_body s u = inr u1 -> at_cursors s u x y ->
     (x + y < 0 -> left u1 = left u + 1 /\ right u1 = right u) /\
     (0 <= x + y -> left u1 = left u /\ right u1 = right u - 1)) /\
  exists st',
    while_loop s (init_state s) = inr st' /\
    left st' = right st' /\
    length tr = 5%nat /\
    tr !! 0%nat = Some (init_state s) /\
    forall (k : nat) u, tr !! k = Some u ->
      left u < right u /\
      exists u1, loop_body s u = inr u1 /\
                 (tr !! S k = Some u1 \/ (S k = length tr /\ u1 = st')).
Proof. apply (cursor_movement [-1; 2; -3; 4; -5; 1]). simpl. lia. Defined.

(** C5. On the inputs of the specification the function returns the pairs
    stated there, a pair naming its two values whichever comes first: the
    pair of 1 and 2 on [1, 2, 3, 4, 5], the pair of -1 and -2 on
    [-1, -2, -3, -4, -5] and the pair of 0 and 0 on [0, 0].  The tuples, as
    read from the sorted list, are (1, 2), (-2, -1) and (0, 0). *)
Theorem concrete_scenarios :
  (yields_pair (snd (find_closest_sum_to_zero [1; 2; 3; 4; 5])) 1 2 /\
   snd (find_closest_sum_to_zero [1; 2; 3; 4; 5]) = inr (Some 1, Some 2)) /\
  (yields_pair (snd (find_closest_sum_to_zero [-1; -2; -3; -4; -5]))
     (-1) (-2) /\
   snd (find_closest_sum_to_zero [-1; -2; -3; -4; -5]) =
     inr (Some (-2), Some (-1))) /\
  (yields_pair (snd (find_closest_sum_to_zero [0; 0])) 0 0 /\
   snd (find_closest_sum_to_zero [0; 0]) = inr (Some 0, Some 0)).
Proof.
  assert (H1 : snd (find_closest_sum_to_zero [1; 2; 3; 4; 5]) =
               inr (Some 1, Some 2)) by (vm_compute; reflexivity).
  assert (H2 : snd (find_closest_sum_to_zero [-1; -2; -3; -4; -5]) =
               inr (Some (-2), Some (-1))) by (vm_compute; reflexivity).
  assert (H3 : snd (find_closest_sum_to_zero [0; 0]) =
               inr (Some 0, Some 0)) by (vm_compute; reflexivity).
  unfold yields_pair. rewrite H1, H2, H3. tauto.
Qed.

(** C6. For a list of length at least 2 the function does not return
    (None, None): the loop has a first iteration, from the initial state,
    whose comparison against the infinite [min_sum] succeeds and records
    the pair under the cursors; the pair returned is made of two elements
    of the argument. *)
Theorem never_absent (arr : list Z) :
  (2 <= length arr)%nat ->
  snd (find_closest_sum_to_zero arr) <> inr (None, None) /\
  (exists a b,
     snd (find_closest_sum_to_zero arr) = inr (Some a, Some b) /\
     a ∈ arr /\ b ∈ arr) /\
  let s := list_sort arr in
  exists x y u1,
    while_trace s (init_state s) !! 0%nat = Some (init_state s) /\
    at_cursors s (init_state s) x y /\
    closer (x + y) (min_sum (init_state s)) = true /\
    loop_body s (init_state s) = inr u1 /\
    result u1 = (Some x, Some y).
Proof.
  intros Hlen.
  destruct (find_closest arr Hlen)
    as (a & b & Hfind & _ & (i & j & _ & Hi & Hj) & _).
  rewrite Hfind. cbn [snd]. split_and!.
  - discriminate.
  - exists a, b. split_and!; [reflexivity|eapply list_elem_of_lookup_2; eauto..].
  - set (s := list_sort arr).
    destruct (find_exec arr Hlen) as (st' & Hex & _ & _). fold s in Hex.
    pose proof (list_sort_length arr) as Hs. fold s in Hs.
    destruct (exec_head _ _ _ _ Hex) as [(_ & _ & Hge)|[Hh Hlt]].
    { change (len s - 1 <= 0) in Hge. unfold len in Hge. lia. }
    destruct (exec_steps _ _ _ _ Hex _ _ Hh) as (_ & u1 & Hb & _).
    destruct (loop_body_inv s (init_state s) u1) as (x & y & Hx & Hy & _ & Hu1);
      [cbn; lia|assumption..|].
    exists x, y, u1. split_and!; try assumption.
    + split; assumption.
    + apply closer_Inf.
    + rewrite Hu1. cbn. rewrite closer_Inf. reflexivity.
Qed.

Lemma never_absent_witness :
  snd (find_closest_sum_to_zero [0; 0]) <> inr (None, None) /\
  (exists a b,
     snd (find_closest_sum_to_zero [0; 0]) = inr (Some a, Some b) /\
     a ∈ [0; 0] /\ b ∈ [0; 0]) /\
  let s := list_sort [0; 0] in
  exists x y u1,
    while_trace s (init_state s) !! 0%nat = Some (init_state s) /\
    at_cursors s (init_state s) x y /\
    closer (x + y) (min_sum (init_state s)) = true /\
    loop_body s (init_state s) = inr u1 /\
    result u1 = (Some x, Some y).
Proof. apply (never_absent [0; 0]). simpl. lia. Defined.

(** C9. The outcome is a function of the sorted form of the argument: two
    arguments that sort to the same list give the same outcome.  When one
    pair of values, at distinct positions, is strictly closer to zero than
    every other, both calls return that pair, the smaller value first. *)
Theorem deterministic (arr1 arr2 : list Z) :
  list_sort arr1 = list_sort arr2 ->
  snd (find_closest_sum_to_zero arr1) = snd (find_closest_sum_to_zero arr2) /\
  forall x y,
    (2 <= length arr1)%nat ->
    occurs_pair arr1 x y ->
    (forall u v, occurs_pair arr1 u v -> Z.abs (u + v) <= Z.abs (x + y) ->
                 (u = x /\ v = y) \/ (u = y /\ v = x)) ->
    snd (find_closest_sum_to_zero arr1) =
      inr (Some (Z.min x y), Some (Z.max x y)) /\
    snd (find_closest_sum_to_zero arr2) =
      inr (Some (Z.min x y), Some (Z.max x y)).
Proof.
  intros Hs. pose proof (find_sort_eq arr1 arr2 Hs) as Heq.
  split; [assumption|]. intros x y Hlen Hxy Huniq.
  rewrite <- Heq.
  destruct (find_closest arr1 Hlen) as (a & b & Hfind & Hab & Hocc & Hmin).
  rewrite Hfind. cbn [snd].
  destruct (Huniq a b Hocc (Hmin x y Hxy)) as [[-> ->]|[-> ->]].
  - rewrite Z.min_l, Z.max_r by lia. auto.
  - rewrite Z.min_r, Z.max_l by lia. auto.
Qed.

Lemma deterministic_witness :
  snd (find_closest_sum_to_zero [3; -1; 2]) =
  snd (find_closest_sum_to_zero [2; 3; -1]) /\
  snd (find_closest_sum_to_zero [2; 3; -1]) = inr (Some (-1), Some 2).
Proof.
  destruct (deterministic [3; -1; 2] [2; 3; -1]) as [Hsame Huniq].
  - vm_compute. reflexivity.
  - split; [exact Hsame|].
    apply (Huniq 2 (-1)).
    + simpl. lia.
    + exists 2%nat, 1%nat. repeat split. lia.
    + intros u v (i & j & Hij & Hi & Hj).
      destruct i as [|[|[|i]]]; destruct j as [|[|[|j]]];
        cbn in Hi, Hj; simplify_eq; try lia; auto.
Defined.

(** * Further properties of the function *)

Lemma Forall_list_sort (P : Z -> Prop) (arr : list Z) :
  Forall P arr -> Forall P (list_sort arr).
Proof. intros H. rewrite list_sort_Permutation. exact H. Qed.

(** The returned pair, located in the sorted list. *)
Lemma find_closest_sorted (arr : list Z) :
  (2 <= length arr)%nat ->
  exists a b (i j : nat),
    snd (find_closest_sum_to_zero arr) = inr (Some a, Some b) /\
    a <= b /\ i <> j /\
    list_sort arr !! i = Some a /\ list_sort arr !! j = Some b /\
    forall x y, occurs_pair (list_sort arr) x y ->
                Z.abs (a + b) <= Z.abs (x + y).
Proof.
  intros Hlen.
  destruct (find_closest arr Hlen) as (a & b & Hfind & Hab & Hocc & Hmin).
  apply (occurs_pair_perm arr (list_sort arr)) in Hocc;
    [|symmetry; apply list_sort_Permutation].
  destruct Hocc as (i & j & Hij & Hi & Hj).
  exists a, b, i, j. rewrite Hfind. split_and!; auto.
  intros x y Hxy. apply Hmin.
  eapply occurs_pair_perm; [apply list_sort_Permutation|exact Hxy].
Qed.

(** X1. On a list of length at least 2 without negative element the
    function returns the two smallest elements: the first two of the sorted
    list. *)
Theorem nonnegative_two_smallest (arr : list Z) :
  (2 <= length arr)%nat ->
  Forall (fun x => 0 <= x) arr ->
  exists a b,
    list_sort arr !! 0%nat = Some a /\ list_sort arr !! 1%nat = Some b /\
    snd (find_closest_sum_to_zero arr) = inr (Some a, Some b).
Proof.
  intros Hlen Hpos.
  pose proof (list_sort_Sorted arr) as Hs.
  pose proof (list_sort_length arr) as Hl.
  apply (Forall_list_sort _ _) in Hpos. rewrite Forall_lookup in Hpos.
  destruct (lookup_lt_is_Some_2 (list_sort arr) 0) as [a0 H0]; [lia|].
  destruct (lookup_lt_is_Some_2 (list_sort arr) 1) as [a1 H1]; [lia|].
  destruct (find_closest_sorted arr Hlen)
    as (a & b & i & j & Hfind & Hab & Hij & Hi & Hj & Hmin).
  exists a0, a1. split_and!; [assumption..|]. rewrite Hfind.
  assert (Hm : Z.abs (a + b) <= Z.abs (a0 + a1))
    by (apply Hmin; exists 0%nat, 1%nat; auto).
  pose proof (Hpos _ _ H0). pose proof (Hpos _ _ H1).
  pose proof (Hpos _ _ Hi). pose proof (Hpos _ _ Hj).
  pose proof (Sorted_lookup_le _ 0 i a0 a Hs ltac:(lia) H0 Hi).
  pose proof (Sorted_lookup_le _ 0 j a0 b Hs ltac:(lia) H0 Hj).
  assert (a = a0 /\ b = a1) as [-> ->]; [|reflexivity].
  destruct i as [|i].
  - pose proof (Sorted_lookup_le _ 1 j a1 b Hs ltac:(lia) H1 Hj).
    simplify_eq. lia.
  - pose proof (Sorted_lookup_le _ 1 (S i) a1 a Hs ltac:(lia) H1 Hi). lia.
Qed.

Lemma nonnegative_two_smallest_witness :
  exists a b,
    list_sort [7; 0; 4; 2] !! 0%nat = Some a /\
    list_sort [7; 0; 4; 2] !! 1%nat = Some b /\
    snd (find_closest_sum_to_zero [7; 0; 4; 2]) = inr (Some a, Some b).
Proof.
  apply (nonnegative_two_smallest [7; 0; 4; 2]).
  - simpl. lia.
  - repeat constructor; lia.
Defined.

(** X2. On a list of length at least 2 without positive element the
    function returns the two largest elements: the last two of the sorted
    list. *)
Theorem nonpositive_two_largest (arr : list Z) :
  (2 <= length arr)%nat ->
  Forall (fun x => x <= 0) arr ->
  exists a b,
    list_sort arr !! (length arr - 2)%nat = Some a /\
    list_sort arr !! (length arr - 1)%nat = Some b /\
    snd (find_closest_sum_to_zero arr) = inr (Some a, Some b).
Proof.
  intros Hlen Hneg.
  pose proof (list_sort_Sorted arr) as Hs.
  pose proof (list_sort_length arr) as Hl.
  apply (Forall_list_sort _ _) in Hneg. rewrite Forall_lookup in Hneg.
  set (n := length arr) in *.
  destruct (lookup_lt_is_Some_2 (list_sort arr) (n - 2)) as [b0 H0]; [lia|].
  destruct (lookup_lt_is_Some_2 (list_sort arr) (n - 1)) as [b1 H1]; [lia|].
  destruct (find_closest_sorted arr Hlen)
    as (a & b & i & j & Hfind & Hab & Hij & Hi & Hj & Hmin).
  exists b0, b1. split_and!; [assumption..|]. rewrite Hfind.
  assert (Hm : Z.abs (a + b) <= Z.abs (b0 + b1))
    by (apply Hmin; exists (n - 2)%nat, (n - 1)%nat; split_and!; auto; lia).
  pose proof (Hneg _ _ H0). pose proof (Hneg _ _ H1).
  pose proof (Hneg _ _ Hi). pose proof (Hneg _ _ Hj).
  pose proof (lookup_lt_Some _ _ _ Hi). pose proof (lookup_lt_Some _ _ _ Hj).
  pose proof (Sorted_lookup_le _ i (n - 1) a b1 Hs ltac:(lia) Hi H1).
  pose proof (Sorted_lookup_le _ j (n - 1) b b1 Hs ltac:(lia) Hj H1).
  assert (a = b0 /\ b = b1) as [-> ->]; [|reflexivity].
  destruct (decide (j = (n - 1)%nat)) as [->|Hj'].
  - pose proof (Sorted_lookup_le _ i (n - 2) a b0 Hs ltac:(lia) Hi H0).
    simplify_eq. lia.
  - pose proof (Sorted_lookup_le _ j (n - 2) b b0 Hs ltac:(lia) Hj H0). lia.
Qed.

Lemma nonpositive_two_largest_witness :
  exists a b,
    list_sort [-7; 0; -4; -2] !! 2%nat = Some a /\
    list_sort [-7; 0; -4; -2] !! 3%nat = Some b /\
    snd (find_closest_sum_to_zero [-7; 0; -4; -2]) = inr (Some a, Some b).
Proof.
  apply (nonpositive_two_largest [-7; 0; -4; -2]).
  - simpl. lia.
  - repeat constructor; lia.
Defined.

(** X3. When two elements at distinct positions of the list cancel each
    other, the function returns a pair whose sum is exactly zero. *)
Theorem cancelling_pair_found (arr : list Z) (x y : Z) :
  occurs_pair arr x y -> x + y = 0 ->
  exists a b,
    snd (find_closest_sum_to_zero arr) = inr (Some a, Some b) /\ a + b = 0.
Proof.
  intros Hxy Hzero.
  assert (Hlen : (2 <= length arr)%nat).
  { destruct Hxy as (i & j & Hij & Hi & Hj).
    apply lookup_lt_Some in Hi, Hj. lia. }
  destruct (find_closest arr Hlen) as (a & b & Hfind & _ & _ & Hmin).
  exists a, b. rewrite Hfind. split; [reflexivity|].
  specialize (Hmin x y Hxy). lia.
Qed.

Lemma cancelling_pair_found_witness :
  exists a b,
    snd (find_closest_sum_to_zero [6; -2; 9; 2; -7]) = inr (Some a, Some b) /\
    a + b = 0.
Proof.
  apply (cancelling_pair_found [6; -2; 9; 2; -7] (-2) 2).
  - exists 1%nat, 3%nat. repeat split. lia.
  - reflexivity.
Defined.

(** * Properties of the console program *)

(** ** Splitting and slicing *)

Lemma split_cons (sep : N) (s : pystr) :
  exists piece pieces, split sep s = piece :: pieces.
Proof.
  destruct s as [|c s]; cbn; [eauto|].
  case_decide; [eauto|]. destruct (split sep s); eauto.
Qed.

(** One piece more than there are separators. *)
Lemma split_length (sep : N) (s : pystr) :
  length (split sep s) = S (length (filter (fun c => c = sep) s)).
Proof.
  induction s as [|c s IH]; [reflexivity|]. cbn [split].
  rewrite filter_cons. case_decide; cbn; [lia|].
  destruct (split_cons sep s) as (piece & pieces & Hs).
  rewrite Hs in *. cbn in *. lia.
Qed.

Lemma split_no_sep (sep : N) (s : pystr) :
  sep ∉ s -> split sep s = [s].
Proof.
  induction s as [|c s IH]; intros Hs; [reflexivity|].
  apply not_elem_of_cons in Hs as [Hc Hs]. cbn.
  case_decide; [congruence|]. rewrite (IH Hs). reflexivity.
Qed.

Lemma slice_cons_snoc (a b : N) (t : pystr) :
  slice_1_m1 (a :: t ++ [b]) = t.
Proof.
  unfold slice_1_m1. cbn [drop].
  rewrite length_cons, length_app. cbn [length].
  replace (S (length t + 1) - 2)%nat with (length t) by lia.
  apply take_app_length.
Qed.

Lemma slice_bracketed (t : pystr) :
  slice_1_m1 (lit "[" ++ t ++ lit "]") = t.
Proof. apply slice_cons_snoc. Qed.

Lemma bracketed_test (t : pystr) :
  startswith (lit "[" ++ t ++ lit "]") (chr "[") &&
  endswith (lit "[" ++ t ++ lit "]") (chr "]") = true.
Proof.
  unfold endswith. change (lit "[") with [chr "["].
  change (lit "]") with [chr "]"].
  replace ([chr "["] ++ t ++ [chr "]"]) with ((chr "[" :: t) ++ [chr "]"])
    by reflexivity.
  rewrite last_snoc. reflexivity.
Qed.

Lemma slice_subseteq (s : pystr) (c : N) :
  c ∈ slice_1_m1 s -> c ∈ s.
Proof.
  unfold slice_1_m1. intros Hc.
  apply elem_of_take in Hc as (i & Hc & _).
  rewrite lookup_drop in Hc. eapply list_elem_of_lookup_2. exact Hc.
Qed.

(** ** The prompt loop *)

Lemma prompt_body_accept (B : builtins) (line : pystr) out numbers :
  prompt_body B line = (out, Some (Some numbers)) ->
  (2 <= length numbers)%nat.
Proof.
  unfold prompt_body. case_decide; [discriminate|].
  destruct (mapM _ _) as [l|]; [|discriminate].
  destruct (Z.of_nat (length l) <? 2) eqn:Hlen; [discriminate|].
  intros [= _ <-]. apply Z.ltb_ge in Hlen. lia.
Qed.

Lemma prompt_loop_accept (B : builtins) (inp : list pystr) numbers :
  outcome (prompt_loop B inp) = inr (Some numbers) ->
  (2 <= length numbers)%nat.
Proof.
  induction inp as [|line inp IH]; cbn; [discriminate|].
  destruct (prompt_body B line) as [out [r|]] eqn:Hb; cbn; [|exact IH].
  intros [= ->]. eapply prompt_body_accept. exact Hb.
Qed.

(** X4. [get_numbers_from_user] never hands a list of fewer than two
    numbers to its caller, so the call of [find_closest_sum_to_zero] on the
    list it returns does not raise: it returns a pair. *)
Theorem entered_list_accepted (B : builtins) (inp : list pystr)
    (numbers : list Z) :
  outcome (get_numbers_from_user B inp) = inr (Some numbers) ->
  (2 <= length numbers)%nat /\
  exists a b,
    snd (find_closest_sum_to_zero numbers) = inr (Some a, Some b).
Proof.
  intros Hout. apply prompt_loop_accept in Hout.
  split; [assumption|].
  destruct (find_closest numbers Hout) as (a & b & -> & _).
  eauto.
Qed.

Lemma entered_list_accepted_witness :
  (2 <= length [4; -3; 10]%Z)%nat /\
  exists a b,
    snd (find_closest_sum_to_zero [4; -3; 10]) = inr (Some a, Some b).
Proof.
  apply (entered_list_accepted sample_builtins
           [lit "12"; lit "4,x"; lit " [4, -3,10] "; lit "q"]).
  vm_compute. reflexivity.
Defined.

(** X5. The two input formats are equivalent: a line that is, once
    stripped, the text t between square brackets is treated exactly as a
    line that is, once stripped, t itself; t must not be bracketed in turn
    and neither line is the quit command. *)
Theorem bracketed_same_as_plain (B : builtins) (line line' t : pystr)
    (rest : list pystr) :
  strip B line = lit "[" ++ t ++ lit "]" ->
  strip B line' = t ->
  startswith t (chr "[") && endswith t (chr "]") = false ->
  lower B (lit "[" ++ t ++ lit "]") <> lit "q" ->
  lower B t <> lit "q" ->
  get_numbers_from_user B (line :: rest) =
  get_numbers_from_user B (line' :: rest).
Proof.
  intros Hline Hline' Hplain Hq Hq'.
  assert (Hbody : prompt_body B line = prompt_body B line').
  { unfold prompt_body. rewrite Hline, Hline'.
    rewrite !decide_False by assumption.
    rewrite bracketed_test, slice_bracketed, Hplain. reflexivity. }
  unfold get_numbers_from_user. cbn [prompt_loop]. rewrite Hbody.
  reflexivity.
Qed.

Lemma bracketed_same_as_plain_witness :
  get_numbers_from_user sample_builtins [lit " [3, -4,5]"; lit "q"] =
  get_numbers_from_user sample_builtins [lit "3, -4,5 "; lit "q"].
Proof.
  apply (bracketed_same_as_plain sample_builtins
           (lit " [3, -4,5]") (lit "3, -4,5 ") (lit "3, -4,5") [lit "q"]).
  - vm_compute. reflexivity.
  - vm_compute. reflexivity.
  - vm_compute. reflexivity.
  - vm_compute. discriminate.
  - vm_compute. discriminate.
Defined.

(** X6. A line accepted by the prompt holds one number for each of its
    comma-separated fields: one more than the stripped line has commas. *)
Theorem accepted_one_per_field (B : builtins) (line : pystr) out
    (numbers : list Z) :
  prompt_body B line = (out, Some (Some numbers)) ->
  length numbers =
  S (length (filter (fun c => c = chr ",") (strip B line))).
Proof.
  unfold prompt_body. case_decide; [discriminate|].
  destruct (mapM _ _) as [l|] eqn:Hm; [|discriminate].
  destruct (Z.of_nat (length l) <? 2); [discriminate|].
  intros [= _ <-]. apply length_mapM in Hm. rewrite <- Hm, split_length.
  f_equal.
  destruct (startswith (strip B line) (chr "[") &&
            endswith (strip B line) (chr "]")) eqn:Hbr; [|reflexivity].
  (* the brackets removed are no commas *)
  apply andb_true_iff in Hbr as [Hs He].
  destruct (strip B line) as [|c s]; [discriminate Hs|].
  unfold startswith in Hs. apply bool_decide_eq_true in Hs. subst c.
  unfold endswith in He.
  destruct (last (chr "[" :: s)) as [z|] eqn:Hlast; cbn beta iota in He;
    [|discriminate He].
  apply bool_decide_eq_true in He. subst z.
  destruct s as [|c s _] using rev_ind; [discriminate Hlast|].
  change (chr "[" :: s ++ [c]) with ((chr "[" :: s) ++ [c]) in Hlast.
  rewrite last_snoc in Hlast. injection Hlast as ->.
  rewrite slice_cons_snoc, filter_cons, filter_app.
  rewrite decide_False by discriminate. cbn. rewrite app_nil_r.
  reflexivity.
Qed.

Lemma accepted_one_per_field_witness :
  length [3; -4; 5] =
  S (length (filter (fun c => c = chr ",")
               (strip sample_builtins (lit " [3, -4,5]")))).
Proof.
  apply (accepted_one_per_field sample_builtins (lit " [3, -4,5]") []).
  vm_compute. reflexivity.
Defined.

(** X7. A line without a comma is never accepted, whatever it holds: the
    prompt prints one of its two complaints and goes on with the next line,
    as if the line had not been there. *)
Theorem no_comma_rejected (B : builtins) (line : pystr) (rest : list pystr) :
  chr "," ∉ strip B line ->
  lower B (strip B line) <> lit "q" ->
  unread (get_numbers_from_user B (line :: rest)) =
    unread (get_numbers_from_user B rest) /\
  outcome (get_numbers_from_user B (line :: rest)) =
    outcome (get_numbers_from_user B rest) /\
  exists msg,
    printed (get_numbers_from_user B (line :: rest)) !! 5%nat =
      Some (Print msg) /\
    (msg = "Please enter at least 2 numbers!"%string \/
     msg = "Invalid input! Please enter numbers in one of these formats:"%string).
Proof.
  intros Hcomma Hq.
  assert (Hbody : exists msg more,
             prompt_body B line = (Print msg :: more, None) /\
             (msg = "Please enter at least 2 numbers!"%string \/
              msg = "Invalid input! Please enter numbers in one of these formats:"%string)).
  { unfold prompt_body. rewrite decide_False by assumption.
    match goal with |- context [split _ ?u] => set (text := u) end.
    assert (Htext : chr "," ∉ text).
    { subst text. destruct (_ && _); [|assumption].
      intros Hin. apply Hcomma. eapply slice_subseteq. exact Hin. }
    rewrite (split_no_sep _ _ Htext). cbn [mapM].
    destruct (py_int B (strip B text)) as [n|]; cbn; eauto. }
  destruct Hbody as (msg & more & Hbody & Hmsg).
  unfold get_numbers_from_user. cbn [prompt_loop]. rewrite Hbody.
  cbn. eauto.
Qed.

Lemma no_comma_rejected_witness :
  unread (get_numbers_from_user sample_builtins [lit "[5]"; lit "1,2"]) =
    unread (get_numbers_from_user sample_builtins [lit "1,2"]) /\
  outcome (get_numbers_from_user sample_builtins [lit "[5]"; lit "1,2"]) =
    outcome (get_numbers_from_user sample_builtins [lit "1,2"]) /\
  exists msg,
    printed (get_numbers_from_user sample_builtins [lit "[5]"; lit "1,2"])
      !! 5%nat = Some (Print msg) /\
    (msg = "Please enter at least 2 numbers!"%string \/
     msg = "Invalid input! Please enter numbers in one of these formats:"%string).
Proof.
  apply (no_comma_rejected sample_builtins (lit "[5]") [lit "1,2"]).
  - vm_compute. intros Hin. repeat (apply elem_of_cons in Hin as [Hin|Hin];
      [discriminate Hin|]). apply elem_of_nil in Hin. exact Hin.
  - vm_compute. discriminate.
Defined.

Lemma prompt_loop_reads (B : builtins) (inp : list pystr) :
  exists used,
    inp = used ++ unread (prompt_loop B inp) /\
    last (printed (prompt_loop B inp)) <> Some (Print "Goodbye!") /\
    match outcome (prompt_loop B inp) with
    | inr _ => used <> []
    | inl e => e = EOFError /\ unread (prompt_loop B inp) = [] /\
               last (printed (prompt_loop B inp)) = Some (Prompt "> ")
    end.
Proof.
  induction inp as [|line inp (used & Hused & Hlast & IH)].
  - exists []. cbn. split_and!; auto; discriminate.
  - cbn [prompt_loop].
    assert (Hout : forall out r, prompt_body B line = (out, r) ->
                     last out <> Some (Print "Goodbye!")).
    { unfold prompt_body. intros out r. case_decide; [intros [= <- _]; discriminate|].
      destruct (mapM _ _) as [l|]; [destruct (_ <? 2)|];
        intros [= <- _]; discriminate. }
    destruct (prompt_body B line) as [out [r|]] eqn:Hb; cbn.
    + exists [line]. split_and!; [reflexivity| |discriminate].
      specialize (Hout _ _ eq_refl). destruct out as [|ev out]; [discriminate|].
      rewrite last_cons_cons. exact Hout.
    + assert (Hne : printed (prompt_loop B inp) <> [])
        by (destruct inp as [|line' inp']; cbn; [discriminate|];
            destruct (prompt_body B line') as [? [?|]]; cbn; discriminate).
      assert (Hl : last (Prompt "> " :: out ++ printed (prompt_loop B inp)) =
                   last (printed (prompt_loop B inp))).
      { change (Prompt "> " :: out ++ ?p) with ((Prompt "> " :: out) ++ p).
        rewrite last_app. destruct (last (printed (prompt_loop B inp))) eqn:E;
          [reflexivity|]. apply last_None in E. contradiction. }
      exists (line :: used). rewrite Hl. split_and!.
      * cbn. congruence.
      * assumption.
      * destruct (outcome (prompt_loop B inp)); [assumption|discriminate].
Qed.

(** X8. [get_numbers_from_user] reads its lines in order and leaves the
    others unread.  When it returns it has read at least one line.  It
    raises nothing but the EOFError of [input], and this only once every
    line has been read: the ValueError of a malformed number never
    escapes. *)
Theorem prompt_reads_in_order (B : builtins) (inp : list pystr) :
  exists used,
    inp = used ++ unread (get_numbers_from_user B inp) /\
    (forall r, outcome (get_numbers_from_user B inp) = inr r -> used <> []) /\
    (forall e, outcome (get_numbers_from_user B inp) = inl e ->
               e = EOFError /\ unread (get_numbers_from_user B inp) = []).
Proof.
  destruct (prompt_loop_reads B inp) as (used & Hused & _ & Hout).
  exists used. cbn [get_numbers_from_user unread outcome].
  split_and!; [assumption|..].
  - intros r Hr. rewrite Hr in Hout. assumption.
  - intros e He. rewrite He in Hout. tauto.
Qed.

(** ** What the program shows *)

Lemma shown_ok_plain (out : list event) : Forall plain out -> shown_ok out.
Proof.
  intros Hall k numbers Hk. rewrite Forall_lookup in Hall.
  destruct (Hall _ _ Hk).
Qed.

Lemma shown_ok_app (out1 out2 : list event) :
  shown_ok out1 -> shown_ok out2 -> shown_ok (out1 ++ out2).
Proof.
  intros H1 H2 k numbers Hk.
  destruct (decide (k < length out1)%nat) as [Hlt|Hge].
  - rewrite lookup_app_l in Hk by assumption.
    destruct (H1 _ _ Hk) as (Hs & r & Hr & Hc).
    split; [assumption|]. exists r. split; [|assumption].
    rewrite lookup_app_l; [assumption|]. eapply lookup_lt_Some. exact Hr.
  - rewrite lookup_app_r in Hk by lia.
    destruct (H2 _ _ Hk) as (Hs & r & Hr & Hc).
    split; [assumption|]. exists r. split; [|assumption].
    rewrite lookup_app_r by lia.
    replace (S k - length out1)%nat with (S (k - length out1)) by lia.
    assumption.
Qed.

Lemma shown_ok_pair (numbers : list Z) (r : pair_result) :
  Sorted Z.le numbers -> closest_in numbers r ->
  shown_ok [PrintArray numbers; PrintResult r].
Proof.
  intros Hs Hc [|[|k]] l Hk; cbn in Hk; try discriminate.
  injection Hk as <-. split; [assumption|]. exists r. auto.
Qed.

(** The list and the result that a call leaves to be shown. *)
Lemma find_shown (numbers : list Z) :
  (2 <= length numbers)%nat ->
  exists r,
    find_closest_sum_to_zero numbers = (list_sort numbers, inr r) /\
    closest_in (list_sort numbers) r.
Proof.
  intros Hlen.
  destruct (find_closest numbers Hlen) as (a & b & Hfind & Hab & Hocc & Hmin).
  exists (Some a, Some b). split; [assumption|].
  exists a, b. split_and!; [reflexivity|assumption| |].
  - eapply occurs_pair_perm; [symmetry; apply list_sort_Permutation|].
    assumption.
  - intros x y Hxy. apply Hmin.
    eapply occurs_pair_perm; [apply list_sort_Permutation|exact Hxy].
Qed.

Lemma show_examples_ok (arrays : list (list Z)) :
  Forall (fun arr => (2 <= length arr)%nat) arrays ->
  snd (show_examples arrays) = None /\ shown_ok (fst (show_examples arrays)).
Proof.
  induction 1 as [|arr arrays Hlen _ [IHe IHs]]; cbn.
  - split; [reflexivity|]. apply shown_ok_plain. constructor.
  - destruct (find_shown arr Hlen) as (r & -> & Hc).
    destruct (show_examples arrays) as [out e]. cbn in *. split; [assumption|].
    apply (shown_ok_app [PrintArray (list_sort arr); PrintResult r] out);
      [|assumption].
    apply shown_ok_pair; [apply list_sort_Sorted|assumption].
Qed.

Lemma test_arrays_long : Forall (fun arr => (2 <= length arr)%nat) test_arrays.
Proof. repeat constructor; simpl; lia. Qed.

Lemma prompt_loop_plain (B : builtins) (inp : list pystr) :
  Forall plain (printed (prompt_loop B inp)).
Proof.
  induction inp as [|line inp IH]; cbn; [repeat constructor|].
  assert (Hout : forall out r, prompt_body B line = (out, r) ->
                   Forall plain out).
  { unfold prompt_body. intros out r. case_decide; [intros [= <- _]; constructor|].
    destruct (mapM _ _) as [l|]; [destruct (_ <? 2)|];
      intros [= <- _]; repeat constructor. }
  destruct (prompt_body B line) as [out [r|]] eqn:Hb; cbn;
    specialize (Hout _ _ eq_refl); constructor; try exact I; [assumption|].
  apply Forall_app. auto.
Qed.

(** ** The menu loop *)

Lemma main_loop_eq (B : builtins) (inp : list pystr) :
  main_loop B inp =
  match menu_iteration B inp with
  | mk_run out rest (inl e) => mk_run out rest (inl e)
  | mk_run out rest (inr Break) => mk_run out rest (inr tt)
  | mk_run out rest (inr Continue) =>
      let r := main_loop B rest in
      mk_run (out ++ printed r) (unread r) (outcome r)
  end.
Proof.
  funelim (main_loop B inp);
    match goal with E : menu_iteration _ _ = _ |- _ => rewrite E end;
    reflexivity.
Qed.

(** What one iteration of the menu does, whatever the choice. *)
Lemma menu_iteration_spec (B : builtins) (inp : list pystr) :
  shown_ok (printed (menu_iteration B inp)) /\
  printed (menu_iteration B inp) <> [] /\
  match outcome (menu_iteration B inp) with
  | inl e =>
      e = EOFError /\
      last (printed (menu_iteration B inp)) = Some (Prompt "> ")
  | inr Break =>
      last (printed (menu_iteration B inp)) = Some (Print "Goodbye!")
  | inr Continue =>
      (length (unread (menu_iteration B inp)) < length inp)%nat
  end.
Proof.
  unfold menu_iteration. destruct inp as [|line inp].
  { cbn. split_and!; try discriminate; try reflexivity.
    apply shown_ok_plain. repeat constructor. }
  match goal with |- context [?a :: [Prompt ?p]] =>
    set (ask := a :: [Prompt p]) end.
  assert (Hask : shown_ok ask) by (apply shown_ok_plain; repeat constructor).
  assert (Hne : forall out : list event, ask ++ out <> []) by discriminate.
  repeat case_decide.
  - (* 1: enter numbers *)
    destruct (prompt_loop_reads B inp) as (used & Hused & _ & Hout).
    pose proof (prompt_loop_plain B inp) as Hplain.
    pose proof (prompt_loop_accept B inp) as Hacc.
    assert (Hlen : (length (unread (prompt_loop B inp)) <= length inp)%nat).
    { rewrite Hused at 2. rewrite length_app. lia. }
    unfold get_numbers_from_user. cbn [printed unread outcome].
    match goal with |- context [?h ++ printed (prompt_loop B inp)] =>
      set (g := h ++ printed (prompt_loop B inp)) end.
    assert (Hg : shown_ok g).
    { apply shown_ok_plain, Forall_app. split; [repeat constructor|assumption]. }
    assert (Hlastg : forall x, last (printed (prompt_loop B inp)) = Some x ->
                               last (ask ++ g) = Some x).
    { intros x Hx. subst g. rewrite !last_app, Hx. reflexivity. }
    destruct (outcome (prompt_loop B inp)) as [e|[[|x numbers]|]].
    + destruct Hout as (-> & _ & Hlast). cbn [printed unread outcome].
      split_and!; [apply shown_ok_app; assumption|apply Hne|reflexivity|].
      apply Hlastg. assumption.
    + cbn [printed unread outcome].
      split_and!; [apply shown_ok_app; assumption|apply Hne|cbn; lia].
    + destruct (find_shown (x :: numbers)) as (r & -> & Hc);
        [apply Hacc; reflexivity|].
      cbn [printed unread outcome]. split_and!; [|apply Hne|cbn; lia].
      apply shown_ok_app; [assumption|]. apply shown_ok_app; [assumption|].
      apply shown_ok_pair; [apply list_sort_Sorted|assumption].
    + cbn [printed unread outcome].
      split_and!; [apply shown_ok_app; assumption|apply Hne|cbn; lia].
  - (* 2: the examples *)
    destruct (show_examples_ok test_arrays test_arrays_long) as [He Hs].
    destruct (show_examples test_arrays) as [out e]. cbn in He, Hs. subst e.
    cbn [printed unread outcome].
    split_and!; [apply shown_ok_app; assumption|apply Hne|cbn; lia].
  - (* 3: quit *)
    cbn [printed unread outcome]. split_and!; [|apply Hne|reflexivity].
    apply shown_ok_app; [assumption|]. apply shown_ok_plain. repeat constructor.
  - (* anything else *)
    cbn [printed unread outcome]. split_and!; [|apply Hne|cbn; lia].
    apply shown_ok_app; [assumption|]. apply shown_ok_plain. repeat constructor.
Qed.

(** Induction along the iterations of the menu loop. *)
Lemma main_loop_iter_ind (B : builtins) (P : run unit -> Prop) :
  (forall inp out rest e,
     menu_iteration B inp = mk_run out rest (inl e) ->
     P (mk_run out rest (inl e))) ->
  (forall inp out rest,
     menu_iteration B inp = mk_run out rest (inr Break) ->
     P (mk_run out rest (inr tt))) ->
  (forall inp out rest r,
     menu_iteration B inp = mk_run out rest (inr Continue) ->
     P r -> P (mk_run (out ++ printed r) (unread r) (outcome r))) ->
  forall inp, P (main_loop B inp).
Proof.
  intros Hcrash Hbreak Hcont inp.
  remember (length inp) as n eqn:Hn. revert inp Hn.
  induction n as [n IH] using lt_wf_ind. intros inp ->.
  rewrite main_loop_eq.
  pose proof (menu_iteration_spec B inp) as (_ & _ & Hspec).
  destruct (menu_iteration B inp) as [out rest [e|[|]]] eqn:Hit.
  - eapply Hcrash. exact Hit.
  - cbn zeta. eapply Hcont; [exact Hit|].
    cbn in Hspec. eapply IH; [exact Hspec|reflexivity].
  - eapply Hbreak. exact Hit.
Qed.

(** X9. Whatever is typed, the program stops in one of two ways only: it
    ends normally, or [input] raises EOFError at the end of the input.  No
    exception of [find_closest_sum_to_zero] is ever raised by the calls
    the program makes. *)
Theorem main_never_uncaught (B : builtins) (inp : list pystr) :
  outcome (main B inp) = inr tt \/ outcome (main B inp) = inl EOFError.
Proof.
  unfold main. cbn [outcome].
  apply (main_loop_iter_ind B
           (fun r => outcome r = inr tt \/ outcome r = inl EOFError)).
  - intros inp' out rest e Hit.
    pose proof (menu_iteration_spec B inp') as (_ & _ & Hspec).
    rewrite Hit in Hspec. cbn in Hspec. destruct Hspec as [-> _]. auto.
  - auto.
  - auto.
Qed.

(** X10. Every list the program shows is sorted in non-decreasing order
    (the order the call left it in, not the order entered), and the line
    that follows shows a pair of elements at distinct positions of that
    list, the smaller first, whose sum is as close to zero as that of any
    two of its elements. *)
Theorem shown_lists_sorted (B : builtins) (inp : list pystr) (k : nat)
    (numbers : list Z) :
  printed (main B inp) !! k = Some (PrintArray numbers) ->
  Sorted Z.le numbers /\
  exists r,
    printed (main B inp) !! S k = Some (PrintResult r) /\
    closest_in numbers r.
Proof.
  revert k numbers. change (shown_ok (printed (main B inp))).
  unfold main. cbn [printed].
  apply shown_ok_app; [apply shown_ok_plain; repeat constructor|].
  apply (main_loop_iter_ind B (fun r => shown_ok (printed r))).
  - intros inp' out rest e Hit.
    pose proof (menu_iteration_spec B inp') as (Hs & _).
    rewrite Hit in Hs. exact Hs.
  - intros inp' out rest Hit.
    pose proof (menu_iteration_spec B inp') as (Hs & _).
    rewrite Hit in Hs. exact Hs.
  - intros inp' out rest r Hit Hr.
    pose proof (menu_iteration_spec B inp') as (Hs & _).
    rewrite Hit in Hs. apply shown_ok_app; assumption.
Qed.

Lemma shown_lists_sorted_witness :
  Sorted Z.le [-10; -8; 3; 4; 5] /\
  exists r,
    printed (main sample_builtins [lit "1"; lit "[-8, 4, 5, -10, 3]"; lit "3"])
      !! 13%nat = Some (PrintResult r) /\
    closest_in [-10; -8; 3; 4; 5] r.
Proof.
  apply (shown_lists_sorted sample_builtins
           [lit "1"; lit "[-8, 4, 5, -10, 3]"; lit "3"] 12).
  vm_compute. reflexivity.
Defined.

(** X11. Option 1 shows the list entered in sorted order: when the menu
    choice is 1 and the prompt returns a list, the iteration prints the
    sorted rearrangement of that list, then a closest pair of it, and the
    menu goes on. *)
Theorem entered_list_shown_sorted (B : builtins) (line : pystr)
    (rest : list pystr) (numbers : list Z) :
  strip B line = lit "1" ->
  outcome (get_numbers_from_user B rest) = inr (Some numbers) ->
  exists r,
    closest_in (list_sort numbers) r /\
    menu_iteration B (line :: rest) =
    mk_run ([Print (nl ++ "Choose an option (1-3):")%string; Prompt "> "] ++
            printed (get_numbers_from_user B rest) ++
            [PrintArray (list_sort numbers); PrintResult r])
           (unread (get_numbers_from_user B rest))
           (inr Continue).
Proof.
  intros Hchoice Hout.
  assert (Hlen : (2 <= length numbers)%nat)
    by (eapply prompt_loop_accept; exact Hout).
  destruct (find_shown numbers Hlen) as (r & Hfind & Hc).
  exists r. split; [assumption|].
  unfold menu_iteration. rewrite decide_True by assumption.
  rewrite Hout, Hfind.
  destruct numbers as [|x numbers]; [cbn in Hlen; lia|]. reflexivity.
Qed.

Lemma entered_list_shown_sorted_witness :
  exists r,
    closest_in (list_sort [3; -4; 5]) r /\
    menu_iteration sample_builtins [lit " 1"; lit "3, -4,5"; lit "3"] =
    mk_run ([Print (nl ++ "Choose an option (1-3):")%string; Prompt "> "] ++
            printed (get_numbers_from_user sample_builtins
                       [lit "3, -4,5"; lit "3"]) ++
            [PrintArray (list_sort [3; -4; 5]); PrintResult r])
           (unread (get_numbers_from_user sample_builtins
                      [lit "3, -4,5"; lit "3"]))
           (inr Continue).
Proof.
  apply (entered_list_shown_sorted sample_builtins (lit " 1")
           [lit "3, -4,5"; lit "3"] [3; -4; 5]).
  - vm_compute. reflexivity.
  - vm_compute. reflexivity.
Defined.

(** X12. The program ends normally exactly when the last thing it printed
    is its farewell: a run cut short by the end of the input never prints
    it, and nothing is printed after it. *)
Theorem goodbye_iff_normal_exit (B : builtins) (inp : list pystr) :
  outcome (main B inp) = inr tt <->
  last (printed (main B inp)) = Some (Print "Goodbye!").
Proof.
  assert (Hloop : printed (main_loop B inp) <> [] /\
                  (outcome (main_loop B inp) = inr tt <->
                   last (printed (main_loop B inp)) = Some (Print "Goodbye!"))).
  { apply (main_loop_iter_ind B
             (fun r => printed r <> [] /\
                       (outcome r = inr tt <->
                        last (printed r) = Some (Print "Goodbye!")))).
    - intros inp' out rest e Hit.
      pose proof (menu_iteration_spec B inp') as (_ & Hne & Hspec).
      rewrite Hit in Hne, Hspec. cbn in Hne, Hspec. destruct Hspec as [_ Hl].
      cbn. split; [assumption|]. rewrite Hl. split; discriminate.
    - intros inp' out rest Hit.
      pose proof (menu_iteration_spec B inp') as (_ & Hne & Hspec).
      rewrite Hit in Hne, Hspec. cbn in Hne, Hspec.
      cbn. split; [assumption|]. rewrite Hspec. split; reflexivity.
    - intros inp' out rest r _ [Hne Hr]. cbn. split.
      + intros Happ. apply app_eq_nil in Happ as [_ ?]. contradiction.
      + rewrite last_app. destruct (last (printed r)) eqn:E; [exact Hr|].
        apply last_None in E. contradiction. }
  destruct Hloop as [Hne Hloop]. unfold main. cbn [printed outcome].
  rewrite last_app. destruct (last (printed (main_loop B inp))) eqn:E;
    [exact Hloop|].
  apply last_None in E. contradiction.
Qed.
